(** * CodeSense: diagnostic parsing and the repair pipeline

    A shallow embedding of the three variants of the CodeSense editor
    extension (the current extension file, [extension-1.js] and
    [extension-original.js]) and the properties of its diagnostic parser,
    its prompt rendering, its response extractor and its repair pipeline. *)

From Stdlib Require Import String Ascii.
From Stdlib Require Import List NArith ZArith Lia Bool.
Import ListNotations.

(** ** JavaScript strings

    A JavaScript string is a sequence of UTF-16 code units.  [String]
    methods and regular expressions without the [u] flag work on code
    units, so this is the representation the source computes on. *)

Definition char16 := N.
Bind Scope N_scope with char16.
Definition jsstring := list char16.

(** A string literal of the source (all literals of the source that the
    model needs are ASCII). *)
Definition lit (s : string) : jsstring := map N_of_ascii (list_ascii_of_string s).

Definition LF : char16 := 10%N.
Definition CR : char16 := 13%N.
Definition LS : char16 := 8232%N.   (* U+2028 *)
Definition PS : char16 := 8233%N.   (* U+2029 *)

(** ECMAScript LineTerminator. *)
Definition is_line_terminator (c : char16) : bool :=
  ((c =? LF) || (c =? CR) || (c =? LS) || (c =? PS))%N.

(** ECMAScript WhiteSpace (TAB, VT, FF, SP, NBSP, ZWNBSP and category Zs)
    together with LineTerminator: the set stripped by [trim] and matched
    by the class escape [\s]. *)
Definition is_space (c : char16) : bool :=
  ((c =? 9) || (c =? 11) || (c =? 12) || (c =? 32) || (c =? 160)
   || (c =? 5760) || ((8192 <=? c) && (c <=? 8202)) || (c =? 8239)
   || (c =? 8287) || (c =? 12288) || (c =? 65279))%N
  || is_line_terminator c.

(** [String.prototype.trimStart], [trimEnd] and [trim]. *)
Fixpoint trimStart (s : jsstring) : jsstring :=
  match s with
  | [] => []
  | c :: s' => if is_space c then trimStart s' else s
  end.

Fixpoint trimEnd (s : jsstring) : jsstring :=
  match s with
  | [] => []
  | c :: s' =>
      match trimEnd s' with
      | [] => if is_space c then [] else [c]
      | t => c :: t
      end
  end.

Definition trim (s : jsstring) : jsstring := trimEnd (trimStart s).

(** [s.startsWith(pat)]. *)
Fixpoint startsWith (s pat : jsstring) : bool :=
  match pat, s with
  | [], _ => true
  | _ :: _, [] => false
  | p :: pat', c :: s' => (c =? p)%N && startsWith s' pat'
  end.

(** [s.indexOf(pat)]: the least index at which [pat] occurs, [-1] when it
    does not occur.  [i] is the index of the head of [s] in the whole
    string. *)
Fixpoint indexOf_from (s pat : jsstring) (i : Z) : Z :=
  if startsWith s pat then i
  else match s with
       | [] => (-1)%Z
       | _ :: s' => indexOf_from s' pat (i + 1)
       end.

Definition indexOf (s pat : jsstring) : Z := indexOf_from s pat 0.

(** [s.lastIndexOf(pat)]: the greatest index at which [pat] occurs, [-1]
    when it does not occur. *)
Fixpoint lastIndexOf_from (s pat : jsstring) (i : Z) : Z :=
  match s with
  | [] => if startsWith s pat then i else (-1)%Z
  | _ :: s' =>
      let later := lastIndexOf_from s' pat (i + 1) in
      if (later =? -1)%Z then (if startsWith s pat then i else (-1)%Z) else later
  end.

Definition lastIndexOf (s pat : jsstring) : Z := lastIndexOf_from s pat 0.

(** [s.length] and [s.substring(start)] (one argument: to the end of the
    string; a negative start counts as 0, one past the end as the end). *)
Definition jslength (s : jsstring) : Z := Z.of_nat (length s).

Definition substring (s : jsstring) (start : Z) : jsstring :=
  skipn (Z.to_nat (Z.max 0 start)) s.

Definition OUTPUT_MARKER : jsstring := lit "Output:".

(** [s.replace(pattern, replacement)] with a string pattern: only the
    first occurrence of [pattern] is replaced, and the replacement text is
    expanded by ECMAScript's GetSubstitution.  With a string pattern there
    are no captures, so the [$] forms that expand are [$$] (a dollar
    sign), [$&] (the matched text), [$`] (the text before the match) and
    [$'] (the text after it); any other [$] stands for itself. *)
Definition DOLLAR : char16 := 36%N.

Fixpoint getSubstitution (matched before after replacement : jsstring) : jsstring :=
  match replacement with
  | [] => []
  | c :: r =>
      if (c =? DOLLAR)%N then
        match r with
        | [] => [c]
        | d :: r' =>
            if (d =? DOLLAR)%N then DOLLAR :: getSubstitution matched before after r'
            else if (d =? 38)%N then matched ++ getSubstitution matched before after r'
            else if (d =? 96)%N then before ++ getSubstitution matched before after r'
            else if (d =? 39)%N then after ++ getSubstitution matched before after r'
            else c :: getSubstitution matched before after r
        end
      else c :: getSubstitution matched before after r
  end.

Definition replace (s pattern replacement : jsstring) : jsstring :=
  let pos := indexOf s pattern in
  if (pos =? -1)%Z then s
  else
    let before := firstn (Z.to_nat pos) s in
    let after := skipn (Z.to_nat pos + length pattern) s in
    before ++ getSubstitution pattern before after replacement ++ after.

(** [s.split(sep)] for a separator of one code unit: the fields between
    the separators, at least one (the empty string splits into one empty
    field). *)
Fixpoint split (s : jsstring) (sep : char16) : list jsstring :=
  match s with
  | [] => [[]]
  | c :: s' =>
      if (c =? sep)%N then [] :: split s' sep
      else match split s' sep with
           | [] => [[c]]
           | l :: ls => (c :: l) :: ls
           end
  end.

(** [lines.join(sep)]. *)
Fixpoint join (l : list jsstring) (sep : jsstring) : jsstring :=
  match l with
  | [] => []
  | [x] => x
  | x :: l' => x ++ sep ++ join l' sep
  end.

(** [array.findIndex(p)]: the index of the first element satisfying [p],
    [-1] when there is none. *)
Fixpoint findIndex_from {A} (p : A -> bool) (l : list A) (i : Z) : Z :=
  match l with
  | [] => (-1)%Z
  | x :: l' => if p x then i else findIndex_from p l' (i + 1)
  end.

Definition findIndex {A} (p : A -> bool) (l : list A) : Z := findIndex_from p l 0.

(** [array.slice(start)]: a negative [start] counts from the end. *)
Definition slice {A} (l : list A) (start : Z) : list A :=
  let len := Z.of_nat (length l) in
  let k := if (start <? 0)%Z then Z.max (len + start) 0 else Z.min start len in
  skipn (Z.to_nat k) l.

(** ** Numbers

    [parseInt(s, 10)]: leading white space and a sign are skipped, then
    the longest prefix of decimal digits is read; with no digit the result
    is NaN.  A number is modelled by its integer value, which the
    JavaScript Number holds exactly for magnitudes below [2^53]; the
    theorems on parsed numbers are stated for that range. *)
Inductive jsnumber : Type :=
| NaN
| Int (z : Z).

Definition is_digit (c : char16) : bool := ((48 <=? c) && (c <=? 57))%N.

Fixpoint digits_value (s : jsstring) (acc : Z) : Z :=
  match s with
  | [] => acc
  | c :: s' =>
      if is_digit c then digits_value s' (10 * acc + (Z.of_N c - 48))%Z else acc
  end.

Definition parseInt10 (s : jsstring) : jsnumber :=
  let s1 := trimStart s in
  let (sign, s2) :=
    match s1 with
    | c :: r => if (c =? 45)%N then ((-1)%Z, r)
                else if (c =? 43)%N then (1%Z, r) else (1%Z, s1)
    | [] => (1%Z, s1)
    end in
  match s2 with
  | c :: _ => if is_digit c then Int (sign * digits_value s2 0) else NaN
  | [] => NaN
  end.

Definition js_sub (a : jsnumber) (b : Z) : jsnumber :=
  match a with
  | NaN => NaN
  | Int z => Int (z - b)
  end.

(** ** Regular expressions

    The fragment of the regular-expression syntax that the source uses:
    character classes, concatenation, the greedy quantifier [+] on a
    class, bounded repetition [{n}] (expanded by [times]) and capturing
    groups.  The matcher is the backtracking matcher of ECMAScript in
    continuation-passing style: [rmatch r s caps k] matches [r] at the
    head of [s] and hands the rest of the input and the captures so far
    to [k]; when [k] fails the matcher backtracks into [r]. *)
Inductive regex : Type :=
| Eps
| Class (p : char16 -> bool)
| Cat (r1 r2 : regex)
| Plus (p : char16 -> bool)
| Group (r : regex).

Definition cls_char (c : char16) : char16 -> bool := fun x => (x =? c)%N.
Definition cls_digit : char16 -> bool := is_digit.                      (* \d *)
Definition cls_space : char16 -> bool := is_space.                      (* \s *)
Definition cls_upper : char16 -> bool := fun x => ((65 <=? x) && (x <=? 90))%N.  (* [A-Z] *)
Definition cls_dot : char16 -> bool := fun x => negb (is_line_terminator x).     (* . *)

Fixpoint times (n : nat) (r : regex) : regex :=
  match n with
  | O => Eps
  | S O => r
  | S n' => Cat r (times n' r)
  end.

Definition captures := list jsstring.

(** Greedy [p+]: as many code units of the class as possible, one fewer
    each time the continuation fails, at least one. *)
Fixpoint plus_class (p : char16 -> bool) (s : jsstring)
         (k : jsstring -> option captures) : option captures :=
  match s with
  | [] => None
  | c :: s' =>
      if p c then
        match plus_class p s' k with
        | Some v => Some v
        | None => k s'
        end
      else None
  end.

Fixpoint rmatch (r : regex) (s : jsstring) (caps : captures)
         (k : jsstring -> captures -> option captures) : option captures :=
  match r with
  | Eps => k s caps
  | Class p =>
      match s with
      | c :: s' => if p c then k s' caps else None
      | [] => None
      end
  | Cat r1 r2 => rmatch r1 s caps (fun s1 caps1 => rmatch r2 s1 caps1 k)
  | Plus p => plus_class p s (fun s' => k s' caps)
  | Group r1 =>
      rmatch r1 s caps
        (fun s' caps' => k s' (caps' ++ [firstn (length s - length s') s]))
  end.

(** A match of [r] at the head of [s]: the captured groups in order. *)
Definition match_here (r : regex) (s : jsstring) : option captures :=
  rmatch r s [] (fun _ caps => Some caps).

(** [s.match(r)] for a regular expression without the [g] flag: the
    leftmost position at which [r] matches, [None] for [null].  The result
    holds the captured groups (elements 1, 2, ... of the JavaScript match
    array). *)
Fixpoint regex_match (r : regex) (s : jsstring) : option captures :=
  match match_here r s with
  | Some caps => Some caps
  | None =>
      match s with
      | [] => None
      | _ :: s' => regex_match r s'
      end
  end.

Definition COLON : char16 := 58%N.

(** The pattern [/:(\d+):(\d+):\s([A-Z]\d{4}):\s(.+)/]. *)
Definition PYLINT_LINE : regex :=
  Cat (Class (cls_char COLON))
 (Cat (Group (Plus cls_digit))
 (Cat (Class (cls_char COLON))
 (Cat (Group (Plus cls_digit))
 (Cat (Class (cls_char COLON))
 (Cat (Class cls_space)
 (Cat (Group (Cat (Class cls_upper) (times 4 (Class cls_digit))))
 (Cat (Class (cls_char COLON))
 (Cat (Class cls_space)
      (Group (Plus cls_dot)))))))))).

(** ** Diagnostics *)

(** [vscode.DiagnosticSeverity]. *)
Inductive DiagnosticSeverity : Type :=
| Error
| Warning
| Information
| Hint.

(** The object built for a matching line. *)
Record ParsedError : Type := {
  line : jsnumber;
  column : jsnumber;
  message : jsstring;
  severity : DiagnosticSeverity
}.

(** The callback of [outputLines.map]: [None] stands for [null].  A match
    of the pattern always carries its four groups, so the last branch is
    taken only when [match] answers [null]. *)
Definition parseLine (l : jsstring) : option ParsedError :=
  match regex_match PYLINT_LINE l with
  | Some [lineNo; colNo; errorCode; msg] =>
      let severity :=
        if startsWith errorCode (lit "F") || startsWith errorCode (lit "E") then Error
        else if startsWith errorCode (lit "I") then Information
        else Warning in
      Some {| line := parseInt10 lineNo;
              column := parseInt10 colNo;
              message := trim msg;
              severity := severity |}
  | _ => None
  end.

(** [.filter(Boolean)] after [.map]: the [null]s are dropped, the objects
    kept in order. *)
Fixpoint filter_some {A} (l : list (option A)) : list A :=
  match l with
  | [] => []
  | Some a :: l' => a :: filter_some l'
  | None :: l' => filter_some l'
  end.

(** [parsedErrors] of [createDiagnostics], as a function of the global
    [linterOutput]. *)
Definition parsedErrors (linterOutput : jsstring) : list ParsedError :=
  let outputLines := split (trim linterOutput) LF in
  filter_some (map parseLine outputLines).

(** [new vscode.Diagnostic(new vscode.Range(p, p), message, severity)] with
    [p = new vscode.Position(line - 1, column)]. *)
Record Diagnostic : Type := {
  range_line : jsnumber;
  range_character : jsnumber;
  diag_message : jsstring;
  diag_severity : DiagnosticSeverity
}.

Definition diagnosticList (errs : list ParsedError) : list Diagnostic :=
  map (fun e => {| range_line := js_sub (line e) 1;
                   range_character := column e;
                   diag_message := message e;
                   diag_severity := severity e |}) errs.

(** [createDiagnostics(fileUri)]: the call [diagnosticCollection.set] it
    makes, if any ([fileUri] is [None] when there is no document). *)
Definition createDiagnostics {Uri} (linterOutput : jsstring) (fileUri : option Uri)
  : option (Uri * list Diagnostic) :=
  match fileUri with
  | Some uri => Some (uri, diagnosticList (parsedErrors linterOutput))
  | None => None
  end.

(** ** Effects

    The handlers talk to the editor and to the model through calls whose
    order matters.  A computation threads the state of the model service
    (of an arbitrary type [W]: the service may answer the same prompt
    differently each time) and the log of the calls made at the boundary,
    and ends with a value or with a thrown [Error] (its [message]). *)
Inductive event : Type :=
| WithProgress (title : jsstring)       (* vscode.window.withProgress *)
| Report (msg : jsstring)               (* progress.report *)
| Chat (prompt : jsstring)              (* ollama.chat *)
| ShowTextDocument (content : jsstring) (* openTextDocument, showTextDocument *)
| ShowErrorMessage (msg : jsstring).    (* vscode.window.showErrorMessage *)

Inductive outcome (A : Type) : Type :=
| Ok (a : A)
| Throw (msg : jsstring).

Arguments Ok {A} a.
Arguments Throw {A} msg.

Section Effects.

Variable W : Type.

Definition M (A : Type) : Type := W * list event -> outcome A * (W * list event).

Definition ret {A} (a : A) : M A := fun st => (Ok a, st).

Definition bind {A B} (m : M A) (f : A -> M B) : M B :=
  fun st =>
    match m st with
    | (Ok a, st') => f a st'
    | (Throw msg, st') => (Throw msg, st')
    end.

Definition throw {A} (msg : jsstring) : M A := fun st => (Throw msg, st).

Definition try_catch {A} (m : M A) (handler : jsstring -> M A) : M A :=
  fun st =>
    match m st with
    | (Ok a, st') => (Ok a, st')
    | (Throw msg, st') => handler msg st'
    end.

Definition emit (e : event) : M unit :=
  fun st => (Ok tt, (fst st, snd st ++ [e])).

(** The model service: the answer to a prompt ([response.message.content])
    or the error the call is rejected with, and the next state of the
    service. *)
Definition model : Type := jsstring -> W -> outcome jsstring * W.

Definition ollama_chat (chat : model) (prompt : jsstring) : M jsstring :=
  fun st =>
    let (r, w') := chat prompt (fst st) in
    (r, (w', snd st ++ [Chat prompt])).

(** The events of a run started in the service state [w]. *)
Definition run {A} (m : M A) (w : W) : list event := snd (snd (m (w, []))).

(** The number of calls to the model in a log. *)
Fixpoint chat_calls (log : list event) : nat :=
  match log with
  | [] => 0
  | Chat _ :: log' => S (chat_calls log')
  | _ :: log' => chat_calls log'
  end.

(** The documents shown in a log. *)
Fixpoint shown_documents (log : list event) : list jsstring :=
  match log with
  | [] => []
  | ShowTextDocument c :: log' => c :: shown_documents log'
  | _ :: log' => shown_documents log'
  end.

End Effects.

Arguments ret {W A} a.
Arguments bind {W A B} m f.
Arguments throw {W A} msg.
Arguments try_catch {W A} m handler.
Arguments emit {W} e.
Arguments ollama_chat {W} chat prompt.
Arguments run {W A} m w.

Declare Scope js_scope.
Delimit Scope js_scope with js.
Notation "x <- m ;; k" := (bind m (fun x => k))
  (at level 61, m at next level, right associativity) : js_scope.
Notation "m ;; k" := (bind m (fun _ => k))
  (at level 61, right associativity) : js_scope.
Local Open Scope js_scope.

(** [prompt.replace("{code}", code).replace("{linterOutput}", linterOutput)],
    the rendering of a prompt shared by the current extension file and
    [extension-1.js]. *)
Definition formatPrompt (prompt code linterOutput : jsstring) : jsstring :=
  replace (replace prompt (lit "{code}") code) (lit "{linterOutput}") linterOutput.

(** ** The current extension file *)
Module Ext.

Definition LOGIC_FIX_PROMPT : jsstring := lit "[INST] <<SYS>>
You are a strict Python code fixer. The input Python code always contains at least one logical or syntax error. You must identify and correct these. Output only the corrected Python code, with NO extra text or formatting.
<</SYS>>

# Example:
Input:
def is_even(n):
    return n % 2 == 1

Output:
def is_even(n):
    return n % 2 == 0

---

Input:
{code}

Output:
[/INST]".

Definition PYLINT_FIX_PROMPT : jsstring := lit "[INST] <<SYS>>
You are a code transformation agent. Your task is to fix syntax errors in the provided Python code based on the given Pylint output. Output only the corrected Python code with no explanations, no commentary, and no Markdown formatting.
<</SYS>>

Python code:
{code}

Pylint output:
{linterOutput}

Instructions:
- Output only the corrected Python code.
[/INST]".

Definition extractLastOutput (result : jsstring) : jsstring :=
  let lastOutputIndex := lastIndexOf result OUTPUT_MARKER in
  if (lastOutputIndex =? -1)%Z then trim result
  else trim (substring result (lastOutputIndex + jslength OUTPUT_MARKER)).

Section Handlers.

Variable W : Type.
Variable chat : model W.

(** [runOllamaPrompt(prompt, code, linterOutput)]; the handler passes the
    empty string where the source leaves the third argument to its
    default. *)
Definition runOllamaPrompt (prompt code linterOutput : jsstring) : M W jsstring :=
  let formattedPrompt := formatPrompt prompt code linterOutput in
  try_catch
    (response <- ollama_chat chat formattedPrompt ;;
     let output := trim response in
     ret (extractLastOutput output))
    (fun msg => throw (lit "Error running Ollama prompt: " ++ msg)).

(** [generateFixedCodeHandler]: [editor] is the text of the document of the
    active editor, [None] when there is no active editor; [linterOutput]
    is the global of that name. *)
Definition generateFixedCodeHandler (editor : option jsstring)
           (linterOutput : jsstring) : M W unit :=
  match editor with
  | None => emit (ShowErrorMessage (lit "No active editor found."))
  | Some code =>
      emit (WithProgress (lit "Generating fixed code...")) ;;
      try_catch
        (emit (Report (lit "Fixing logical errors...")) ;;
         code <- runOllamaPrompt LOGIC_FIX_PROMPT code [] ;;
         emit (Report (lit "Fixing Pylint syntax errors...")) ;;
         code <- runOllamaPrompt PYLINT_FIX_PROMPT code linterOutput ;;
         emit (ShowTextDocument code))
        (fun msg =>
           emit (ShowErrorMessage (lit "Error generating fixed code: " ++ msg)))
  end.

End Handlers.

End Ext.

(** ** [extension-1.js] *)
Module Ext1.

Definition LOGIC_FIX_PROMPT : jsstring := lit "[INST] <<SYS>>
You are a strict Python code fixer. The input Python code always contains at least one logical or syntax error. You must identify and correct these. Output only the corrected Python code, with NO extra text or formatting.
<</SYS>>

Input:
{code}

Output:
[/INST]".

Definition SYNTAX_FIX_PROMPT : jsstring := lit "[INST] <<SYS>>
You are a code transformation agent. Your task is to fix syntax errors in the provided Python code. Output only the corrected Python code with no explanations or formatting.
<</SYS>>

Input:
{code}

Output:
[/INST]".

Definition PYLINT_FIX_PROMPT : jsstring := lit "[INST] <<SYS>>
You are a code transformation agent. Your task is to fix remaining Pylint errors in the provided Python code based on the given Pylint output. Output only the corrected Python code with no explanations or formatting.
<</SYS>>

Python code:
{code}

Pylint output:
{linterOutput}

Output:
[/INST]".

Section Handlers.

Variable W : Type.
Variable chat : model W.

Definition runOllamaPrompt (prompt code linterOutput : jsstring) : M W jsstring :=
  let formattedPrompt := formatPrompt prompt code linterOutput in
  try_catch
    (response <- ollama_chat chat formattedPrompt ;;
     ret (trim response))
    (fun msg => throw (lit "Error running Ollama prompt: " ++ msg)).

Definition generateFixedCodeHandler (editor : option jsstring)
           (linterOutput : jsstring) : M W unit :=
  match editor with
  | None => emit (ShowErrorMessage (lit "No active editor found."))
  | Some code =>
      emit (WithProgress (lit "Generating fixed code...")) ;;
      try_catch
        (emit (Report (lit "Fixing logical errors...")) ;;
         code <- runOllamaPrompt LOGIC_FIX_PROMPT code [] ;;
         emit (Report (lit "Fixing syntax errors...")) ;;
         code <- runOllamaPrompt SYNTAX_FIX_PROMPT code [] ;;
         emit (Report (lit "Fixing remaining Pylint errors...")) ;;
         code <- runOllamaPrompt PYLINT_FIX_PROMPT code linterOutput ;;
         emit (ShowTextDocument code))
        (fun msg =>
           emit (ShowErrorMessage (lit "Error generating fixed code: " ++ msg)))
  end.

End Handlers.

End Ext1.

(** ** [extension-original.js] *)
Module Original.

(** The two parts of the prompt around the interpolated [${code}]. *)
Definition PROMPT_BEFORE_CODE : jsstring := lit "[INST] <<SYS>>
You are a strict Python code fixer. The input Python code always contains at least one logical or syntax error. You must identify and correct these. Output only the corrected Python code, with NO extra text or formatting.
<</SYS>>

# Example:
Input:
def is_even(n):
    return n % 2 == 1

Output:
def is_even(n):
    return n % 2 == 0

---

Input:
".

Definition PROMPT_AFTER_CODE : jsstring := lit "

Output:
[/INST]".

(** [extractLastOutput] of [extension-original.js]: the empty string when
    the marker is not found. *)
Definition extractLastOutput (result : jsstring) : jsstring :=
  let lastOutputIndex := lastIndexOf result OUTPUT_MARKER in
  if (lastOutputIndex =? -1)%Z then []
  else trim (substring result (lastOutputIndex + jslength OUTPUT_MARKER)).

(** The filter of [runOllamaPrompt] on the model's answer. *)
Definition cleanResponse (content : jsstring) : jsstring :=
  let output := trim content in
  let lines := split output LF in
  let firstCodeLineIndex :=
    findIndex (fun l => startsWith (trim l) (lit "def")) lines in
  join (slice lines firstCodeLineIndex) [LF].

Section Handlers.

Variable W : Type.
Variable chat : model W.

Definition runOllamaPrompt (code : jsstring) : M W jsstring :=
  let prompt := PROMPT_BEFORE_CODE ++ code ++ PROMPT_AFTER_CODE in
  try_catch
    (response <- ollama_chat chat prompt ;;
     ret (cleanResponse response))
    (fun msg => throw (lit "Error running Ollama prompt: " ++ msg)).

Definition generateFixedCodeHandler (editor : option jsstring) : M W unit :=
  match editor with
  | None => emit (ShowErrorMessage (lit "No active editor found."))
  | Some code =>
      emit (WithProgress (lit "Generating fixed code...")) ;;
      try_catch
        (code <- runOllamaPrompt code ;;
         let code := extractLastOutput code in
         emit (ShowTextDocument code))
        (fun msg =>
           emit (ShowErrorMessage (lit "Error generating fixed code: " ++ msg)))
  end.

End Handlers.

End Original.

(** * Vocabulary of the statements *)

(** [pat] occurs in [s]. *)
Definition occurs (pat s : jsstring) : Prop :=
  exists pre post, s = pre ++ pat ++ post.

(** A string that does not start with white space. *)
Definition starts_clean (s : jsstring) : Prop :=
  match s with
  | [] => True
  | c :: _ => is_space c = false
  end.

(** [s.toUpperCase()] on ASCII text. *)
Definition toUpperCase (s : jsstring) : jsstring :=
  map (fun c => if ((97 <=? c) && (c <=? 122))%N then (c - 32)%N else c) s.

(** The code that a prompt rendered from [template] with an empty
    [linterOutput] carries in its [{code}] slot. *)
Definition code_slot (template prompt : jsstring) : jsstring :=
  let pos := Z.to_nat (indexOf template (lit "{code}")) in
  let rest := length (formatPrompt template [] []) - pos in
  firstn (length prompt - pos - rest) (skipn pos prompt).

(** A model service for the two-stage example: its first answer is the
    code of the prompt in upper case, its second answer the code of the
    prompt followed by ["!"]; its state counts the calls. *)
Definition example_model : model nat :=
  fun prompt n =>
    match n with
    | 0 => (Ok (toUpperCase (code_slot Ext.LOGIC_FIX_PROMPT prompt)), 1)
    | 1 => (Ok (code_slot Ext.PYLINT_FIX_PROMPT prompt ++ lit "!"), 2)
    | _ => (Throw (lit "no further call expected"), S n)
    end.

(** A model service whose second call fails. *)
Definition failing_model : model nat :=
  fun prompt n =>
    match n with
    | 0 => (Ok (toUpperCase (code_slot Ext.LOGIC_FIX_PROMPT prompt)), 1)
    | _ => (Throw (lit "connection refused"), S n)
    end.

(** A model service that gives the same answer to every prompt. *)
Definition constant_model (answer : jsstring) : model unit :=
  fun _ w => (Ok answer, w).

(** An answer of the model without any function definition. *)
Definition ANSWER_WITHOUT_DEF : jsstring :=
  lit "Here is the fixed code:
x = 1
print(x)
".

(** All the code units of [s] are in the class [p]. *)
Definition all (p : char16 -> bool) (s : jsstring) : Prop :=
  Forall (fun c => p c = true) s.

(** The strings a regular expression denotes. *)
Fixpoint lang (r : regex) (w : jsstring) : Prop :=
  match r with
  | Eps => w = []
  | Class p => exists c, w = [c] /\ p c = true
  | Cat r1 r2 => exists w1 w2, w = w1 ++ w2 /\ lang r1 w1 /\ lang r2 w2
  | Plus p => w <> [] /\ all p w
  | Group r1 => lang r1 w
  end.

(** The number of capturing groups of a regular expression. *)
Fixpoint groups (r : regex) : nat :=
  match r with
  | Eps | Class _ | Plus _ => 0
  | Cat r1 r2 => groups r1 + groups r2
  | Group r1 => S (groups r1)
  end.

(** One or more decimal digits. *)
Definition digits (s : jsstring) : Prop := s <> [] /\ all is_digit s.

Definition SPACE : char16 := 32%N.

(** The shape of a line as the specification words it: [:], digits, [:],
    digits, colon and space, an upper-case letter and four digits, colon
    and space, and a remainder that is not empty. *)
Definition stated_shape (l : jsstring) : Prop :=
  exists pre ln cn L d4 msg,
    l = pre ++ COLON :: ln ++ COLON :: cn ++ COLON :: SPACE :: L :: d4
            ++ COLON :: SPACE :: msg /\
    digits ln /\ digits cn /\ cls_upper L = true /\
    length d4 = 4 /\ all is_digit d4 /\ msg <> [].

(** The shape of a line that the pattern of the source matches: after
    each of the two colons around the classifier comes one white-space code
    unit of any kind, and the remainder starts with a code unit that is
    not a line terminator. *)
Definition matched_shape (l : jsstring) : Prop :=
  exists pre ln cn s1 L d4 s2 c msg,
    l = pre ++ COLON :: ln ++ COLON :: cn ++ COLON :: s1 :: L :: d4
            ++ COLON :: s2 :: c :: msg /\
    digits ln /\ digits cn /\ is_space s1 = true /\ cls_upper L = true /\
    length d4 = 4 /\ all is_digit d4 /\ is_space s2 = true /\
    is_line_terminator c = false.

(** The decimal digits of a natural number, as [%d] prints it. *)
Fixpoint decimal (fuel : nat) (n : N) : jsstring :=
  match fuel with
  | O => []
  | S f => (if (n <? 10)%N then [] else decimal f (n / 10)) ++ [(48 + n mod 10)%N]
  end.

Definition fmt_d (n : N) : jsstring := decimal (S (N.to_nat (N.log2 n))) n.

(** A line of the linter's output, ["%s:%d:%d: %s%04d: %s"]: the path, the
    line and column numbers, the classifier letter [L] with its four
    digits [d4], and the message. *)
Definition pylint_line (path : jsstring) (ln cn : N) (L : char16)
           (d4 msg : jsstring) : jsstring :=
  path ++ COLON :: fmt_d ln ++ COLON :: fmt_d cn ++ COLON :: SPACE :: L :: d4
       ++ COLON :: SPACE :: msg.

(** The severity that the specification gives a classifier letter: [E] and
    [F] are errors, [I] is information, any other letter a warning. *)
Definition severity_of_letter (L : char16) : DiagnosticSeverity :=
  if ((L =? 69) || (L =? 70))%N then Error
  else if (L =? 73)%N then Information
  else Warning.

(** A line in which a tab stands where the specification has a space. *)
Definition LINE_WITH_TABS : jsstring :=
  lit "a.py:1:2:" ++ [9%N] ++ lit "E0001:" ++ [9%N] ++ lit "bad".

(** A line whose remainder is a lone carriage return. *)
Definition LINE_WITH_CR_MESSAGE : jsstring := lit "a.py:1:2: E0001: " ++ [CR].

(** A line whose remainder is white space only. *)
Definition LINE_WITH_BLANK_MESSAGE : jsstring := lit "a.py:1:2: E0001:  ".

(** [shaped_lines lines n]: [n] of the [lines] are of the shape that the
    pattern matches. *)
Inductive shaped_lines : list jsstring -> nat -> Prop :=
| shaped_nil : shaped_lines [] 0
| shaped_hit l ls n :
    matched_shape l -> shaped_lines ls n -> shaped_lines (l :: ls) (S n)
| shaped_miss l ls n :
    ~ matched_shape l -> shaped_lines ls n -> shaped_lines (l :: ls) n.

(** A model service whose answers carry the marker: its first answer is
    the code of the prompt in upper case behind some words and the marker,
    its second answer the code of the prompt followed by ["!"], likewise. *)
Definition chatty_model : model nat :=
  fun prompt n =>
    match n with
    | 0 => (Ok (lit "Sure, here it is. Output: "
                  ++ toUpperCase (code_slot Ext.LOGIC_FIX_PROMPT prompt)), 1)
    | 1 => (Ok (lit "Fixed. Output: "
                  ++ code_slot Ext.PYLINT_FIX_PROMPT prompt ++ lit "!"), 2)
    | _ => (Throw (lit "no further call expected"), S n)
    end.

(** A model service that answers every prompt with some words, the marker
    and a line of code. *)
Definition talkative_model : model nat :=
  fun _ n => (Ok (lit "Sure. Output: x = 1"), S n).

(** * Proof steps for the handlers *)

(** Run a handler up to its next call to the model. *)
Ltac run_handler :=
  cbv [run Ext.generateFixedCodeHandler Ext1.generateFixedCodeHandler
       Original.generateFixedCodeHandler
       Ext.runOllamaPrompt Ext1.runOllamaPrompt Original.runOllamaPrompt
       bind try_catch emit ret throw ollama_chat fst snd];
  cbn [app].

(** Resume with the model's answer to that call. *)
Ltac answer H := rewrite H; cbn [app].

(** * Further vocabulary *)

(** A string that does not end with white space. *)
Definition ends_clean (s : jsstring) : Prop := trimEnd s = s.

(** The text of [t] before the first occurrence of [pat], and the text
    after it. *)
Definition part_before (t pat : jsstring) : jsstring :=
  firstn (Z.to_nat (indexOf t pat)) t.

Definition part_after (t pat : jsstring) : jsstring :=
  skipn (Z.to_nat (indexOf t pat) + length pat) t.

Definition CODE_SLOT : jsstring := lit "{code}".
Definition LINTER_SLOT : jsstring := lit "{linterOutput}".

(** The fixed text of a prompt around its [{code}] placeholder, and, for
    a prompt with both placeholders, between and after them. *)
Definition before_code (t : jsstring) : jsstring := part_before t CODE_SLOT.
Definition after_code (t : jsstring) : jsstring := part_after t CODE_SLOT.
Definition between_slots (t : jsstring) : jsstring :=
  part_before (after_code t) LINTER_SLOT.
Definition after_slots (t : jsstring) : jsstring :=
  part_after (after_code t) LINTER_SLOT.

(** The error messages shown in a log. *)
Fixpoint error_messages (log : list event) : list jsstring :=
  match log with
  | [] => []
  | ShowErrorMessage m :: log' => m :: error_messages log'
  | _ :: log' => error_messages log'
  end.

(** Case analysis on the model's answer to the next call of a handler. *)
Ltac next_answer chat :=
  match goal with
  | |- context [chat ?p ?w] =>
      let r := fresh "r" in
      let m := fresh "m" in
      let w' := fresh "w" in
      destruct (chat p w) as [[r | m] w'];
      cbv beta iota zeta; cbn [app]
  end.

(** A model service for the three-stage handler whose third call fails. *)
Definition third_call_fails : model nat :=
  fun prompt n =>
    match n with
    | 0 => (Ok (lit "x = 1"), 1)
    | 1 => (Ok (lit "x = 2"), 2)
    | _ => (Throw (lit "model not found"), S n)
    end.

(** What follows the first line in [join (x :: l) sep]. *)
Definition join_tail (l : list jsstring) (sep : jsstring) : jsstring :=
  match l with
  | [] => []
  | _ :: _ => sep ++ join l sep
  end.

(** * The linter run

    [runLinter] and the callbacks it registers.  JavaScript runs one
    callback at a time, so the run of the extension is the sequence of the
    callbacks that the editor, the file system and the child processes
    fire, each one a step on the extension's state. *)

(** A document identity ([document.uri]). *)
Definition Uri : Type := jsstring.

Definition uri_eq_dec : forall a b : Uri, {a = b} + {a <> b} :=
  list_eq_dec N.eq_dec.

(** The part of a [vscode.TextDocument] that [runLinter] reads. *)
Record TextDocument : Type := {
  languageId : jsstring;
  fileName : jsstring;
  uri : Uri
}.

(** What the callbacks do to the outside, in order. *)
Inductive linter_effect : Type :=
| ErrorMessage (msg : jsstring)                      (* vscode.window.showErrorMessage *)
| ReadFile (path : jsstring)                         (* fs.readFile(path, "utf8", ...) *)
| Spawn (command : jsstring) (args : list jsstring)  (* spawn(command, args, { shell: true }) *)
| StdinWrite (data : jsstring)                       (* linter.stdin.write *)
| StdinEnd.                                          (* linter.stdin.end *)

(** The state of the extension: the global [linterOutput], the entries of
    [diagnosticCollection] and the effects so far. *)
Record LinterState : Type := {
  linterOutput : jsstring;
  diagnosticCollection : Uri -> option (list Diagnostic);
  effects : list linter_effect
}.

(** [diagnosticCollection.set(uri, diagnostics)]: the diagnostics of [uri]
    are replaced. *)
Definition collection_set (c : Uri -> option (list Diagnostic)) (u : Uri)
           (ds : list Diagnostic) : Uri -> option (list Diagnostic) :=
  fun u' => if uri_eq_dec u' u then Some ds else c u'.

(** The callbacks that can fire.  The data of a chunk is its text: the
    source turns each chunk into a string on its own ([data.toString()])
    before it uses it, so a character whose bytes are cut by the boundary
    of two chunks arrives as the replacement characters of two separate
    decodings, and the text of the chunks together is then not the text of
    the process's whole output. *)
Inductive callback : Type :=
| DidSave (document : TextDocument)
    (* onDidSaveTextDocument: [runLinter(document)] *)
| FileRead (document : TextDocument) (result : outcome jsstring)
    (* the callback of [fs.readFile] in the run for [document] *)
| StdoutData (data : jsstring)
    (* linter.stdout.on("data"); [data] is [data.toString()] of the chunk *)
| StderrData (data : jsstring)
    (* linter.stderr.on("data"); [data] is [data.toString()] of the chunk *)
| Close (document : TextDocument) (active : option Uri).
    (* linter.on("close") in the run for [document]; [active] is
       [vscode.window.activeTextEditor?.document.uri] at that time *)

(** [filePath.split("\\").pop()]. *)
Definition BACKSLASH : char16 := 92%N.

Definition lastPathSegment (filePath : jsstring) : jsstring :=
  last (split filePath BACKSLASH) [].

Module Linter.

Section Callbacks.

(** The argument that the [close] callback gives [createDiagnostics]: the
    uri of the active editor's document in the current extension file and
    in [extension-original.js], [document.uri] in [extension-1.js]. *)
Variable fileUriOnClose : TextDocument -> option Uri -> option Uri.

Definition emit (e : list linter_effect) (st : LinterState) : LinterState :=
  {| linterOutput := linterOutput st;
     diagnosticCollection := diagnosticCollection st;
     effects := effects st ++ e |}.

(** The synchronous part of [runLinter(document)]. *)
Definition runLinter (document : TextDocument) (st : LinterState) : LinterState :=
  if uri_eq_dec (languageId document) (lit "python") then
    emit [ReadFile (fileName document)]
      {| linterOutput := [];
         diagnosticCollection := diagnosticCollection st;
         effects := effects st |}
  else st.

(** The callback of [fs.readFile]. *)
Definition onFileRead (document : TextDocument) (result : outcome jsstring)
           (st : LinterState) : LinterState :=
  match result with
  | Throw msg => emit [ErrorMessage (lit "Failed to read file: " ++ msg)] st
  | Ok fileContent =>
      emit [ Spawn (lit "python")
               [lit "-m"; lit "pylint"; lit "--from-stdin";
                lastPathSegment (fileName document)];
             StdinWrite fileContent;
             StdinEnd ] st
  end.

(** [linterOutput += data.toString()] *)
Definition onStdout (data : jsstring) (st : LinterState) : LinterState :=
  {| linterOutput := linterOutput st ++ data;
     diagnosticCollection := diagnosticCollection st;
     effects := effects st |}.

Definition onStderr (data : jsstring) (st : LinterState) : LinterState :=
  emit [ErrorMessage (lit "Pylint Error: " ++ data)] st.

Definition onClose (document : TextDocument) (active : option Uri)
           (st : LinterState) : LinterState :=
  match createDiagnostics (linterOutput st) (fileUriOnClose document active) with
  | Some (fileUri, diagnostics) =>
      {| linterOutput := linterOutput st;
         diagnosticCollection :=
           collection_set (diagnosticCollection st) fileUri diagnostics;
         effects := effects st |}
  | None => st
  end.

Definition step (st : LinterState) (cb : callback) : LinterState :=
  match cb with
  | DidSave document => runLinter document st
  | FileRead document result => onFileRead document result st
  | StdoutData data => onStdout data st
  | StderrData data => onStderr data st
  | Close document active => onClose document active st
  end.

Definition steps (st : LinterState) (cbs : list callback) : LinterState :=
  fold_left step cbs st.

End Callbacks.

(** [let fileUri = vscode.window.activeTextEditor?.document.uri] *)
Definition activeEditorUri (document : TextDocument) (active : option Uri)
  : option Uri := active.


End Linter.

(** The texts of the standard-output chunks that a sequence of callbacks
    delivers, one after the other. *)
Fixpoint stdout_of (cbs : list callback) : jsstring :=
  match cbs with
  | [] => []
  | StdoutData data :: cbs' => data ++ stdout_of cbs'
  | _ :: cbs' => stdout_of cbs'
  end.

(** No callback of the sequence is the save of a Python document. *)
Fixpoint no_python_save (cbs : list callback) : Prop :=
  match cbs with
  | [] => True
  | DidSave document :: cbs' =>
      languageId document <> lit "python" /\ no_python_save cbs'
  | _ :: cbs' => no_python_save cbs'
  end.


(** Two documents for the examples. *)
Definition DOC_A : TextDocument :=
  {| languageId := lit "python"; fileName := lit "C:\work\a.py";
     uri := lit "file:///c%3A/work/a.py" |}.

Definition DOC_B : TextDocument :=
  {| languageId := lit "python"; fileName := lit "C:\work\b.py";
     uri := lit "file:///c%3A/work/b.py" |}.

Definition EMPTY_STATE : LinterState :=
  {| linterOutput := []; diagnosticCollection := fun _ => None; effects := [] |}.


(** * Properties *)

(** ** Occurrences of a string in another *)

Lemma startsWith_spec s pat :
  startsWith s pat = true <-> exists post, s = pat ++ post.
Proof.
  revert s; induction pat as [|p pat IH]; intros s; simpl.
  - split; [intros _; now exists s | now destruct s].
  - destruct s as [|c s]; simpl.
    + split; [discriminate | intros [post H]; discriminate].
    + rewrite andb_true_iff, N.eqb_eq, IH. split.
      * intros [-> [post ->]]. now exists post.
      * intros [post H]. injection H as -> ->. split; [reflexivity | now exists post].
Qed.

Lemma occurs_cons pat c s :
  occurs pat (c :: s) <-> startsWith (c :: s) pat = true \/ occurs pat s.
Proof.
  rewrite startsWith_spec. split.
  - intros [[|x pre] [post H]].
    + left. now exists post.
    + right. simpl in H. injection H as -> ->. now exists pre, post.
  - intros [[post H] | [pre [post H]]].
    + now exists [], post.
    + exists (c :: pre), post. simpl. now rewrite H.
Qed.

Lemma occurs_nil pat : occurs pat [] <-> startsWith [] pat = true.
Proof.
  rewrite startsWith_spec. split.
  - intros [pre [post H]]. destruct pre; [now exists post | discriminate].
  - intros [post H]. now exists [], post.
Qed.

(** [lastIndexOf] answers [-1] exactly when the pattern does not occur. *)
Lemma lastIndexOf_from_none s pat i :
  (0 <= i)%Z ->
  (lastIndexOf_from s pat i = (-1)%Z <-> ~ occurs pat s).
Proof.
  revert i; induction s as [|c s IH]; intros i Hi; cbn [lastIndexOf_from].
  - rewrite occurs_nil. destruct (startsWith [] pat); split; intros H.
    + lia.
    + now elim H.
    + discriminate.
    + reflexivity.
  - rewrite occurs_cons.
    specialize (IH (i + 1)%Z ltac:(lia)).
    destruct (Z.eqb_spec (lastIndexOf_from s pat (i + 1)) (-1)) as [E | NE].
    + destruct (startsWith (c :: s) pat); split; intros H.
      * lia.
      * elim H. now left.
      * intros [H1 | H1]; [discriminate | now apply IH in H1].
      * reflexivity.
    + split; [lia |]. intros H. elim NE. apply IH. tauto.
Qed.

Lemma lastIndexOf_none s pat :
  lastIndexOf s pat = (-1)%Z <-> ~ occurs pat s.
Proof. apply lastIndexOf_from_none. lia. Qed.

(** When the pattern occurs at [pre] and nowhere later, [lastIndexOf]
    answers the length of [pre]. *)
Lemma lastIndexOf_from_last pre pat rest i :
  (0 <= i)%Z ->
  startsWith rest pat = true ->
  ~ occurs pat (tl rest) ->
  lastIndexOf_from (pre ++ rest) pat i = (i + Z.of_nat (length pre))%Z.
Proof.
  revert i; induction pre as [|c pre IH]; intros i Hi Hs Hn.
  - cbn [app length Z.of_nat]. rewrite Z.add_0_r.
    destruct rest as [|c rest]; cbn [lastIndexOf_from].
    + now rewrite Hs.
    + cbn [tl] in Hn. apply (lastIndexOf_from_none rest pat (i + 1)%Z) in Hn; [|lia].
      rewrite Hn. cbn [Z.eqb Pos.eqb]. now rewrite Hs.
  - change ((c :: pre) ++ rest) with (c :: (pre ++ rest)).
    cbn [lastIndexOf_from]. rewrite IH by (auto; lia).
    destruct (Z.eqb_spec (i + 1 + Z.of_nat (length pre)) (-1)); [lia|].
    cbn [length]. lia.
Qed.

(** ** Trimming *)

Lemma trimStart_suffix s : exists a, s = a ++ trimStart s.
Proof.
  induction s as [|c s [a IH]]; simpl.
  - now exists [].
  - destruct (is_space c).
    + exists (c :: a). simpl. now rewrite <- IH.
    + now exists [].
Qed.

Lemma trimEnd_prefix s : exists b, s = trimEnd s ++ b.
Proof.
  induction s as [|c s [b IH]]; simpl.
  - now exists [].
  - destruct (trimEnd s) as [|t ts] eqn:E.
    + destruct (is_space c).
      * now exists (c :: s).
      * exists b. simpl in IH. simpl. now rewrite <- IH.
    + exists b. simpl. now rewrite IH at 1.
Qed.

Lemma trim_infix s : exists a b, s = a ++ trim s ++ b.
Proof.
  destruct (trimStart_suffix s) as [a Ha].
  destruct (trimEnd_prefix (trimStart s)) as [b Hb].
  exists a, b. unfold trim. now rewrite <- Hb.
Qed.

Lemma trimStart_clean s : starts_clean s -> trimStart s = s.
Proof. destruct s as [|c s]; simpl; [reflexivity | now intros ->]. Qed.

Lemma trimStart_starts_clean s : starts_clean (trimStart s).
Proof.
  induction s as [|c s IH]; simpl; [exact I|].
  destruct (is_space c) eqn:E; [exact IH | exact E].
Qed.

Lemma trimEnd_starts_clean s : starts_clean s -> starts_clean (trimEnd s).
Proof.
  destruct s as [|c s]; simpl; [trivial|].
  intros H. rewrite H. now destruct (trimEnd s).
Qed.

Lemma trimEnd_idem s : trimEnd (trimEnd s) = trimEnd s.
Proof.
  induction s as [|c s IH]; simpl; [reflexivity|].
  destruct (trimEnd s) as [|t ts] eqn:E.
  - destruct (is_space c) eqn:Ec; simpl; [reflexivity | now rewrite Ec].
  - change (trimEnd (c :: t :: ts))
      with (match trimEnd (t :: ts) with
            | [] => if is_space c then [] else [c]
            | x :: xs => c :: x :: xs
            end).
    now rewrite IH.
Qed.

Lemma trim_idem s : trim (trim s) = trim s.
Proof.
  unfold trim.
  rewrite (trimStart_clean (trimEnd (trimStart s))).
  - apply trimEnd_idem.
  - apply trimEnd_starts_clean, trimStart_starts_clean.
Qed.

Lemma occurs_infix pat a s b : occurs pat s -> occurs pat (a ++ s ++ b).
Proof.
  intros [pre [post ->]]. exists (a ++ pre), (post ++ b).
  now rewrite <- !app_assoc.
Qed.

Lemma trim_no_occurrence pat s : ~ occurs pat s -> ~ occurs pat (trim s).
Proof.
  intros H H'. apply H. destruct (trim_infix s) as [a [b E]].
  rewrite E. now apply occurs_infix.
Qed.

(** ** The response extractor *)

Lemma Ext_extract_markerless s :
  ~ occurs OUTPUT_MARKER s -> Ext.extractLastOutput s = trim s.
Proof.
  intros H. unfold Ext.extractLastOutput.
  apply lastIndexOf_none in H. now rewrite H.
Qed.

Lemma Original_extract_markerless s :
  ~ occurs OUTPUT_MARKER s -> Original.extractLastOutput s = [].
Proof.
  intros H. unfold Original.extractLastOutput.
  apply lastIndexOf_none in H. now rewrite H.
Qed.

(** The marker does not overlap itself: after an occurrence, the next one
    can only start behind it. *)
Lemma marker_no_overlap post :
  ~ occurs OUTPUT_MARKER post -> ~ occurs OUTPUT_MARKER (tl (OUTPUT_MARKER ++ post)).
Proof.
  intros H. cbn [OUTPUT_MARKER lit list_ascii_of_string map app tl].
  repeat (rewrite occurs_cons; intros [H' | H']; [discriminate H' | revert H']).
  exact H.
Qed.

Lemma substring_after pre pat post :
  substring (pre ++ pat ++ post) (Z.of_nat (length pre) + jslength pat) = post.
Proof.
  unfold substring, jslength.
  replace (Z.to_nat (Z.max 0 (Z.of_nat (length pre) + Z.of_nat (length pat))))
    with (length (pre ++ pat)) by (rewrite length_app; lia).
  rewrite app_assoc. rewrite skipn_app, skipn_all, Nat.sub_diag. reflexivity.
Qed.

Lemma lastIndexOf_marker pre post :
  ~ occurs OUTPUT_MARKER post ->
  lastIndexOf (pre ++ OUTPUT_MARKER ++ post) OUTPUT_MARKER = Z.of_nat (length pre).
Proof.
  intros H. unfold lastIndexOf.
  rewrite lastIndexOf_from_last; [lia | lia | | now apply marker_no_overlap].
  apply startsWith_spec. now exists post.
Qed.

Lemma Ext_extract_after_last pre post :
  ~ occurs OUTPUT_MARKER post ->
  Ext.extractLastOutput (pre ++ OUTPUT_MARKER ++ post) = trim post.
Proof.
  intros H. unfold Ext.extractLastOutput.
  rewrite (lastIndexOf_marker pre post H).
  destruct (Z.eqb_spec (Z.of_nat (length pre)) (-1)); [lia|].
  now rewrite substring_after.
Qed.

Lemma Original_extract_after_last pre post :
  ~ occurs OUTPUT_MARKER post ->
  Original.extractLastOutput (pre ++ OUTPUT_MARKER ++ post) = trim post.
Proof.
  intros H. unfold Original.extractLastOutput.
  rewrite (lastIndexOf_marker pre post H).
  destruct (Z.eqb_spec (Z.of_nat (length pre)) (-1)); [lia|].
  now rewrite substring_after.
Qed.

(** Absence of the marker in a given string, decided by [lastIndexOf]. *)
Lemma no_marker_by_search s :
  lastIndexOf s OUTPUT_MARKER = (-1)%Z -> ~ occurs OUTPUT_MARKER s.
Proof. apply lastIndexOf_none. Qed.

(** C1 (as amended).  On a response without the marker ["Output:"] the
    extractor of the current extension file returns the whole response
    trimmed, and the extractor of [extension-original.js] returns the empty
    string; both are total functions, so neither fails. *)
Theorem extractLastOutput_without_marker (s : jsstring) :
  ~ occurs OUTPUT_MARKER s ->
  Ext.extractLastOutput s = trim s /\ Original.extractLastOutput s = [].
Proof.
  intros H. split.
  - now apply Ext_extract_markerless.
  - now apply Original_extract_markerless.
Qed.

Lemma extractLastOutput_without_marker_witness :
  ~ occurs OUTPUT_MARKER (lit " abc ") /\
  Ext.extractLastOutput (lit " abc ") = lit "abc" /\
  Original.extractLastOutput (lit " abc ") = [].
Proof.
  assert (H : ~ occurs OUTPUT_MARKER (lit " abc "))
    by (apply no_marker_by_search; reflexivity).
  split; [exact H|].
  exact (extractLastOutput_without_marker _ H).
Defined.

(** C1 (as stated) fails on [extension-original.js]: the response ["abc"]
    has no marker, and the extractor of that file returns the empty string,
    not the trimmed response. *)
Lemma extractLastOutput_original_not_trimmed :
  ~ occurs OUTPUT_MARKER (lit "abc") /\
  Original.extractLastOutput (lit "abc") = [] /\
  trim (lit "abc") = lit "abc" /\
  Original.extractLastOutput (lit "abc") <> trim (lit "abc").
Proof.
  split; [apply no_marker_by_search; reflexivity|].
  split; [reflexivity|]. split; [reflexivity|]. discriminate.
Qed.

(** C6.  The extractor slices after the last occurrence of the marker: a
    response [pre ++ "Output:" ++ post] whose [post] holds no further
    marker is extracted to [post] trimmed, whatever [pre] holds (earlier
    markers included), in the current extension file and in
    [extension-original.js]; so ["noise Output: A Output: B"] is extracted
    to ["B"]. *)
Theorem extractLastOutput_last_marker :
  (forall pre post, ~ occurs OUTPUT_MARKER post ->
     Ext.extractLastOutput (pre ++ OUTPUT_MARKER ++ post) = trim post /\
     Original.extractLastOutput (pre ++ OUTPUT_MARKER ++ post) = trim post) /\
  Ext.extractLastOutput (lit "noise Output: A Output: B") = lit "B" /\
  Original.extractLastOutput (lit "noise Output: A Output: B") = lit "B".
Proof.
  split; [|split; reflexivity].
  intros pre post H. split.
  - now apply Ext_extract_after_last.
  - now apply Original_extract_after_last.
Qed.

Lemma extractLastOutput_last_marker_witness :
  ~ occurs OUTPUT_MARKER (lit " B") /\
  Ext.extractLastOutput (lit "noise Output: A " ++ OUTPUT_MARKER ++ lit " B") = lit "B" /\
  Original.extractLastOutput (lit "noise Output: A " ++ OUTPUT_MARKER ++ lit " B") = lit "B".
Proof.
  assert (H : ~ occurs OUTPUT_MARKER (lit " B"))
    by (apply no_marker_by_search; reflexivity).
  split; [exact H|].
  exact (proj1 extractLastOutput_last_marker (lit "noise Output: A ") (lit " B") H).
Defined.

(** C9.  On a response without the marker the extractor is idempotent, in
    the current extension file and in [extension-original.js]. *)
Theorem extractLastOutput_idempotent_without_marker (s : jsstring) :
  ~ occurs OUTPUT_MARKER s ->
  Ext.extractLastOutput (Ext.extractLastOutput s) = Ext.extractLastOutput s /\
  Original.extractLastOutput (Original.extractLastOutput s)
    = Original.extractLastOutput s.
Proof.
  intros H. split.
  - rewrite (Ext_extract_markerless s H).
    rewrite (Ext_extract_markerless (trim s) (trim_no_occurrence _ s H)).
    apply trim_idem.
  - rewrite (Original_extract_markerless s H). reflexivity.
Qed.

Lemma extractLastOutput_idempotent_without_marker_witness :
  ~ occurs OUTPUT_MARKER (lit "  x = 1 ") /\
  Ext.extractLastOutput (Ext.extractLastOutput (lit "  x = 1 "))
    = Ext.extractLastOutput (lit "  x = 1 ") /\
  Original.extractLastOutput (Original.extractLastOutput (lit "  x = 1 "))
    = Original.extractLastOutput (lit "  x = 1 ").
Proof.
  assert (H : ~ occurs OUTPUT_MARKER (lit "  x = 1 "))
    by (apply no_marker_by_search; reflexivity).
  split; [exact H|].
  exact (extractLastOutput_idempotent_without_marker _ H).
Defined.

(** ** The repair pipeline *)

(** C3 (as amended).  The stages run in declaration order, and the prompt
    of each stage after the first is rendered with the text that
    [runOllamaPrompt] returned for the stage before, not with the text of
    the document; the document shown holds what [runOllamaPrompt] returned
    for the last stage.  In the current extension file that text is the
    extracted answer of the stage; in [extension-1.js], which has no
    extractor, it is the whole answer of the stage, trimmed.  In the
    current extension file, with a first stage that answers its code in
    upper case and a second that appends ["!"], the document text ["ab"]
    gives ["AB!"], also when the answers come behind other words and the
    marker. *)
Theorem pipeline_stages_in_order :
  (forall (W : Type) (chat : model W) (code linterOutput : jsstring) (w : W)
          (r1 r2 : jsstring) (w1 w2 : W),
      let code1 := Ext.extractLastOutput (trim r1) in
      chat (formatPrompt Ext.LOGIC_FIX_PROMPT code []) w = (Ok r1, w1) ->
      chat (formatPrompt Ext.PYLINT_FIX_PROMPT code1 linterOutput) w1 = (Ok r2, w2) ->
      run (Ext.generateFixedCodeHandler W chat (Some code) linterOutput) w =
        [ WithProgress (lit "Generating fixed code...");
          Report (lit "Fixing logical errors...");
          Chat (formatPrompt Ext.LOGIC_FIX_PROMPT code []);
          Report (lit "Fixing Pylint syntax errors...");
          Chat (formatPrompt Ext.PYLINT_FIX_PROMPT code1 linterOutput);
          ShowTextDocument (Ext.extractLastOutput (trim r2)) ]) /\
  (forall (W : Type) (chat : model W) (code linterOutput : jsstring) (w : W)
          (r1 r2 r3 : jsstring) (w1 w2 w3 : W),
      chat (formatPrompt Ext1.LOGIC_FIX_PROMPT code []) w = (Ok r1, w1) ->
      chat (formatPrompt Ext1.SYNTAX_FIX_PROMPT (trim r1) []) w1 = (Ok r2, w2) ->
      chat (formatPrompt Ext1.PYLINT_FIX_PROMPT (trim r2) linterOutput) w2 = (Ok r3, w3) ->
      run (Ext1.generateFixedCodeHandler W chat (Some code) linterOutput) w =
        [ WithProgress (lit "Generating fixed code...");
          Report (lit "Fixing logical errors...");
          Chat (formatPrompt Ext1.LOGIC_FIX_PROMPT code []);
          Report (lit "Fixing syntax errors...");
          Chat (formatPrompt Ext1.SYNTAX_FIX_PROMPT (trim r1) []);
          Report (lit "Fixing remaining Pylint errors...");
          Chat (formatPrompt Ext1.PYLINT_FIX_PROMPT (trim r2) linterOutput);
          ShowTextDocument (trim r3) ]) /\
  shown_documents
    (run (Ext.generateFixedCodeHandler nat example_model (Some (lit "ab")) []) 0)
    = [lit "AB!"] /\
  run (Ext.generateFixedCodeHandler nat chatty_model (Some (lit "ab")) []) 0 =
    [ WithProgress (lit "Generating fixed code...");
      Report (lit "Fixing logical errors...");
      Chat (formatPrompt Ext.LOGIC_FIX_PROMPT (lit "ab") []);
      Report (lit "Fixing Pylint syntax errors...");
      Chat (formatPrompt Ext.PYLINT_FIX_PROMPT (lit "AB") []);
      ShowTextDocument (lit "AB!") ].
Proof.
  split; [|split; [|split]].
  - intros W chat code lo w r1 r2 w1 w2 code1 H1 H2. subst code1.
    run_handler. answer H1. answer H2. reflexivity.
  - intros W chat code lo w r1 r2 r3 w1 w2 w3 H1 H2 H3.
    run_handler. answer H1. answer H2. answer H3. reflexivity.
  - vm_compute. reflexivity.
  - vm_compute. reflexivity.
Qed.

Lemma pipeline_stages_in_order_witness :
  example_model (formatPrompt Ext.LOGIC_FIX_PROMPT (lit "ab") []) 0
    = (Ok (lit "AB"), 1) /\
  example_model (formatPrompt Ext.PYLINT_FIX_PROMPT (lit "AB") []) 1
    = (Ok (lit "AB!"), 2) /\
  run (Ext.generateFixedCodeHandler nat example_model (Some (lit "ab")) []) 0 =
    [ WithProgress (lit "Generating fixed code...");
      Report (lit "Fixing logical errors...");
      Chat (formatPrompt Ext.LOGIC_FIX_PROMPT (lit "ab") []);
      Report (lit "Fixing Pylint syntax errors...");
      Chat (formatPrompt Ext.PYLINT_FIX_PROMPT (lit "AB") []);
      ShowTextDocument (lit "AB!") ].
Proof.
  assert (H1 : example_model (formatPrompt Ext.LOGIC_FIX_PROMPT (lit "ab") []) 0
               = (Ok (lit "AB"), 1)) by (vm_compute; reflexivity).
  assert (H2 : example_model (formatPrompt Ext.PYLINT_FIX_PROMPT (lit "AB") []) 1
               = (Ok (lit "AB!"), 2)) by (vm_compute; reflexivity).
  split; [exact H1|]. split; [exact H2|].
  exact (proj1 pipeline_stages_in_order nat example_model (lit "ab") [] 0
           (lit "AB") (lit "AB!") 1 2 H1 H2).
Defined.

(** C3 (as stated) fails on [extension-1.js]: there the answer of a
    stage is not extracted.  An answer ["Sure. Output: x = 1"], whose
    extracted output is ["x = 1"], goes whole into the code slot of the
    next prompt, and the document shown holds it whole. *)
Lemma pipeline_ext1_answer_not_extracted :
  run (Ext1.generateFixedCodeHandler nat talkative_model (Some (lit "x = 2")) []) 0 =
    [ WithProgress (lit "Generating fixed code...");
      Report (lit "Fixing logical errors...");
      Chat (formatPrompt Ext1.LOGIC_FIX_PROMPT (lit "x = 2") []);
      Report (lit "Fixing syntax errors...");
      Chat (formatPrompt Ext1.SYNTAX_FIX_PROMPT (lit "Sure. Output: x = 1") []);
      Report (lit "Fixing remaining Pylint errors...");
      Chat (formatPrompt Ext1.PYLINT_FIX_PROMPT (lit "Sure. Output: x = 1") []);
      ShowTextDocument (lit "Sure. Output: x = 1") ] /\
  Ext.extractLastOutput (lit "Sure. Output: x = 1") = lit "x = 1" /\
  formatPrompt Ext1.SYNTAX_FIX_PROMPT (lit "Sure. Output: x = 1") []
    <> formatPrompt Ext1.SYNTAX_FIX_PROMPT (lit "x = 1") [] /\
  shown_documents
    (run (Ext1.generateFixedCodeHandler nat talkative_model (Some (lit "x = 2")) []) 0)
    <> [lit "x = 1"].
Proof.
  split; [vm_compute; reflexivity|]. split; [vm_compute; reflexivity|]. split.
  - intros H. apply (f_equal (@length char16)) in H. vm_compute in H. discriminate H.
  - intros H. vm_compute in H. discriminate H.
Qed.

(** C4.  When the call to the model fails in a stage, the pipeline stops
    there: the only thing shown is an error message that ends with the
    message of the error that the call was rejected with; the model is not
    called again (one call when the first stage fails, two when the
    second does) and no document is shown. *)
Theorem pipeline_stage_failure
  (W : Type) (chat : model W) (code linterOutput : jsstring) (w : W) :
  (forall msg w1,
      chat (formatPrompt Ext.LOGIC_FIX_PROMPT code []) w = (Throw msg, w1) ->
      let log := run (Ext.generateFixedCodeHandler W chat (Some code) linterOutput) w in
      log = [ WithProgress (lit "Generating fixed code...");
              Report (lit "Fixing logical errors...");
              Chat (formatPrompt Ext.LOGIC_FIX_PROMPT code []);
              ShowErrorMessage (lit "Error generating fixed code: "
                                ++ lit "Error running Ollama prompt: " ++ msg) ] /\
      chat_calls log = 1 /\ shown_documents log = []) /\
  (forall r1 w1 msg w2,
      let code1 := Ext.extractLastOutput (trim r1) in
      chat (formatPrompt Ext.LOGIC_FIX_PROMPT code []) w = (Ok r1, w1) ->
      chat (formatPrompt Ext.PYLINT_FIX_PROMPT code1 linterOutput) w1 = (Throw msg, w2) ->
      let log := run (Ext.generateFixedCodeHandler W chat (Some code) linterOutput) w in
      log = [ WithProgress (lit "Generating fixed code...");
              Report (lit "Fixing logical errors...");
              Chat (formatPrompt Ext.LOGIC_FIX_PROMPT code []);
              Report (lit "Fixing Pylint syntax errors...");
              Chat (formatPrompt Ext.PYLINT_FIX_PROMPT code1 linterOutput);
              ShowErrorMessage (lit "Error generating fixed code: "
                                ++ lit "Error running Ollama prompt: " ++ msg) ] /\
      chat_calls log = 2 /\ shown_documents log = []).
Proof.
  split.
  - intros msg w1 H1 log.
    assert (E : log = [ WithProgress (lit "Generating fixed code...");
              Report (lit "Fixing logical errors...");
              Chat (formatPrompt Ext.LOGIC_FIX_PROMPT code []);
              ShowErrorMessage (lit "Error generating fixed code: "
                                ++ lit "Error running Ollama prompt: " ++ msg) ]).
    { subst log. run_handler. answer H1. reflexivity. }
    rewrite E. repeat split.
  - intros r1 w1 msg w2 code1 H1 H2 log.
    assert (E : log = [ WithProgress (lit "Generating fixed code...");
              Report (lit "Fixing logical errors...");
              Chat (formatPrompt Ext.LOGIC_FIX_PROMPT code []);
              Report (lit "Fixing Pylint syntax errors...");
              Chat (formatPrompt Ext.PYLINT_FIX_PROMPT code1 linterOutput);
              ShowErrorMessage (lit "Error generating fixed code: "
                                ++ lit "Error running Ollama prompt: " ++ msg) ]).
    { subst log code1. run_handler. answer H1. answer H2. reflexivity. }
    rewrite E. repeat split.
Qed.

Lemma pipeline_stage_failure_witness :
  failing_model (formatPrompt Ext.LOGIC_FIX_PROMPT (lit "ab") []) 0
    = (Ok (lit "AB"), 1) /\
  failing_model (formatPrompt Ext.PYLINT_FIX_PROMPT (lit "AB") (lit "lint")) 1
    = (Throw (lit "connection refused"), 2) /\
  let log := run (Ext.generateFixedCodeHandler nat failing_model
                    (Some (lit "ab")) (lit "lint")) 0 in
  log = [ WithProgress (lit "Generating fixed code...");
          Report (lit "Fixing logical errors...");
          Chat (formatPrompt Ext.LOGIC_FIX_PROMPT (lit "ab") []);
          Report (lit "Fixing Pylint syntax errors...");
          Chat (formatPrompt Ext.PYLINT_FIX_PROMPT (lit "AB") (lit "lint"));
          ShowErrorMessage
            (lit "Error generating fixed code: Error running Ollama prompt: connection refused") ] /\
  chat_calls log = 2 /\ shown_documents log = [].
Proof.
  assert (H1 : failing_model (formatPrompt Ext.LOGIC_FIX_PROMPT (lit "ab") []) 0
               = (Ok (lit "AB"), 1)) by (vm_compute; reflexivity).
  assert (H2 : failing_model (formatPrompt Ext.PYLINT_FIX_PROMPT (lit "AB") (lit "lint")) 1
               = (Throw (lit "connection refused"), 2)) by (vm_compute; reflexivity).
  split; [exact H1|]. split; [exact H2|].
  exact (proj2 (pipeline_stage_failure nat failing_model (lit "ab") (lit "lint") 0)
           (lit "AB") 1 (lit "connection refused") 2 H1 H2).
Defined.

(** ** Prompt rendering *)

(** The two renderings of the specification's example. *)
Lemma formatPrompt_examples :
  formatPrompt (lit "x={code} y={linterOutput}") (lit "1") (lit "2") = lit "x=1 y=2" /\
  formatPrompt (lit "x={code} y={linterOutput}") (lit "1") [] = lit "x=1 y=".
Proof. split; reflexivity. Qed.

(** Only the first occurrence of a placeholder is replaced. *)
Lemma formatPrompt_first_occurrence_only :
  formatPrompt (lit "{code}|{code}|{linterOutput}|{linterOutput}") (lit "1") (lit "2")
  = lit "1|{code}|2|{linterOutput}".
Proof. reflexivity. Qed.

(** C7 (failing input).  The binding of a slot is not inserted as it is:
    [replace] expands the [$] forms of the binding.  Python code that ends
    a regular expression with [$'] pulls the rest of the template into the
    code, and the [{linterOutput}] placeholder that came with it is the one
    replaced; [$$] loses a dollar sign, and [$&] becomes the placeholder
    itself. *)
Theorem formatPrompt_expands_dollar_forms :
  formatPrompt (lit "x={code} y={linterOutput}") (lit "re.match('^a$', s)") (lit "2")
    = lit "x=re.match('^a y=2, s) y={linterOutput}" /\
  formatPrompt (lit "x={code} y={linterOutput}") (lit "re.match('^a$', s)") (lit "2")
    <> lit "x=re.match('^a$', s) y=2" /\
  formatPrompt (lit "x={code} y={linterOutput}") (lit "print('$$5')") (lit "2")
    = lit "x=print('$5') y=2" /\
  formatPrompt (lit "x={code} y={linterOutput}") (lit "$&") (lit "2")
    = lit "x={code} y=2".
Proof. repeat split; try reflexivity. discriminate. Qed.

(** A binding that holds the text of the other placeholder: the second
    replacement lands in the code, not in the template's slot. *)
Lemma formatPrompt_placeholder_in_code :
  formatPrompt (lit "x={code} y={linterOutput}") (lit "{linterOutput}") (lit "2")
  = lit "x=2 y={linterOutput}".
Proof. reflexivity. Qed.

(** *** Bindings without [$] *)

Lemma getSubstitution_plain matched before after r :
  ~ In DOLLAR r -> getSubstitution matched before after r = r.
Proof.
  induction r as [|c r IH]; intros H; [reflexivity|].
  cbn [getSubstitution]. destruct (N.eqb_spec c DOLLAR) as [-> | _].
  - elim H. now left.
  - rewrite IH; [reflexivity|]. intros H'. apply H. now right.
Qed.

Lemma indexOf_from_eq s pat i :
  indexOf_from s pat i
  = if startsWith s pat then i
    else match s with
         | [] => (-1)%Z
         | _ :: s' => indexOf_from s' pat (i + 1)
         end.
Proof. destruct s; reflexivity. Qed.

Lemma length_removelast_lt {A} (l : list A) :
  l <> [] -> S (length (removelast l)) = length l.
Proof.
  intros H. destruct l as [|x l]; [congruence|].
  rewrite (app_removelast_last x H) at 2.
  rewrite length_app. cbn [length]. lia.
Qed.

(** An occurrence that starts in [pre] lies within [pre] and all but the
    last code unit of the pattern that follows. *)
Lemma startsWith_in_prefix c pre pat post :
  pat <> [] ->
  startsWith ((c :: pre) ++ pat ++ post) pat = true ->
  occurs pat ((c :: pre) ++ removelast pat).
Proof.
  intros Hne H. apply startsWith_spec in H. destruct H as [post' E].
  rewrite (app_removelast_last c Hne) in E at 1.
  rewrite <- app_assoc, app_assoc in E.
  symmetry in E. apply app_eq_app in E. destruct E as [l [[E1 E2] | [E1 E2]]].
  - exists [], []. cbn [app]. rewrite app_nil_r.
    assert (Hl : length pat = length (((c :: pre) ++ removelast pat) ++ l))
      by now rewrite <- E1.
    rewrite !length_app in Hl. cbn [length] in Hl.
    pose proof (length_removelast_lt pat Hne).
    destruct l; [|cbn [length] in Hl; lia].
    now rewrite app_nil_r in E1.
  - exists [], l. exact E1.
Qed.

Lemma indexOf_from_first pre pat post i :
  pat <> [] -> ~ occurs pat (pre ++ removelast pat) ->
  indexOf_from (pre ++ pat ++ post) pat i = (i + Z.of_nat (length pre))%Z.
Proof.
  intros Hne. revert i. induction pre as [|c pre IH]; intros i H;
    rewrite indexOf_from_eq.
  - cbn [app length Z.of_nat].
    replace (startsWith (pat ++ post) pat) with true
      by (symmetry; apply startsWith_spec; now exists post).
    lia.
  - destruct (startsWith ((c :: pre) ++ pat ++ post) pat) eqn:E.
    + elim H. now apply startsWith_in_prefix with (post := post).
    + cbn [app]. rewrite IH; [cbn [length]; lia|].
      intros H'. apply H. change ((c :: pre) ++ removelast pat)
        with (c :: (pre ++ removelast pat)). apply occurs_cons. now right.
Qed.

(** [replace] puts the replacement in the place of the first occurrence
    of the pattern when the replacement holds no [$]. *)
Lemma replace_first_occurrence pre pat post r :
  pat <> [] -> ~ occurs pat (pre ++ removelast pat) -> ~ In DOLLAR r ->
  replace (pre ++ pat ++ post) pat r = pre ++ r ++ post.
Proof.
  intros Hne Hfirst Hr. unfold replace, indexOf.
  rewrite indexOf_from_first by assumption. cbn [Z.add].
  destruct (Z.eqb_spec (Z.of_nat (length pre)) (-1)); [lia|].
  rewrite Nat2Z.id, getSubstitution_plain by exact Hr.
  rewrite firstn_app, firstn_all, Nat.sub_diag. cbn [firstn]. rewrite app_nil_r.
  rewrite (app_assoc pre pat post), <- length_app.
  rewrite skipn_app, skipn_all, Nat.sub_diag. reflexivity.
Qed.

(** Rendering is the substitution of the two bindings for the first
    occurrence of their placeholders when neither binding holds a [$]
    and the code does not bring an occurrence of [{linterOutput}] before
    the one of the template. *)
Lemma formatPrompt_verbatim a b c code linterOutput :
  ~ occurs (lit "{code}") (a ++ removelast (lit "{code}")) ->
  ~ occurs (lit "{linterOutput}")
      ((a ++ code ++ b) ++ removelast (lit "{linterOutput}")) ->
  ~ In DOLLAR code -> ~ In DOLLAR linterOutput ->
  formatPrompt (a ++ lit "{code}" ++ b ++ lit "{linterOutput}" ++ c) code linterOutput
  = a ++ code ++ b ++ linterOutput ++ c.
Proof.
  intros H1 H2 Hc Hl. unfold formatPrompt.
  rewrite replace_first_occurrence; [| discriminate | exact H1 | exact Hc].
  replace (a ++ code ++ b ++ lit "{linterOutput}" ++ c)
    with ((a ++ code ++ b) ++ lit "{linterOutput}" ++ c)
    by now rewrite <- !app_assoc.
  rewrite replace_first_occurrence; [| discriminate | exact H2 | exact Hl].
  now rewrite <- !app_assoc.
Qed.

(** ** The filter of [extension-original.js] on the model's answer *)

Lemma findIndex_from_none {A} (p : A -> bool) (l : list A) (i : Z) :
  (forall x, In x l -> p x = false) -> findIndex_from p l i = (-1)%Z.
Proof.
  revert i; induction l as [|x l IH]; intros i H; cbn [findIndex_from].
  - reflexivity.
  - rewrite (H x (or_introl eq_refl)). apply IH. intros y Hy. apply H. now right.
Qed.

Lemma findIndex_from_first {A} (p : A -> bool) (before : list A) x after (i : Z) :
  (forall y, In y before -> p y = false) -> p x = true ->
  findIndex_from p (before ++ x :: after) i = (i + Z.of_nat (length before))%Z.
Proof.
  revert i; induction before as [|b before IH]; intros i H Hx.
  - cbn [app findIndex_from length Z.of_nat]. rewrite Hx. lia.
  - cbn [app findIndex_from]. rewrite (H b (or_introl eq_refl)).
    rewrite IH; [cbn [length]; lia | | exact Hx].
    intros y Hy. apply H. now right.
Qed.

Lemma split_not_nil s sep : split s sep <> [].
Proof.
  destruct s as [|c s]; cbn [split]; [discriminate|].
  destruct (c =? sep)%N; [discriminate|]. now destruct (split s sep).
Qed.

Lemma skipn_last {A} (l : list A) (d : A) :
  l <> [] -> skipn (length l - 1) l = [last l d].
Proof.
  induction l as [|x l IH]; intros H; [congruence|].
  destruct l as [|y l]; [reflexivity|].
  cbn [length]. replace (S (S (length l)) - 1) with (S (length (y :: l) - 1))
    by (cbn [length]; lia).
  cbn [skipn]. rewrite IH by discriminate. reflexivity.
Qed.

Lemma slice_minus_one {A} (l : list A) (d : A) :
  l <> [] -> slice l (-1) = [last l d].
Proof.
  intros H. unfold slice. cbn [Z.ltb Z.compare].
  replace (Z.to_nat (Z.max (Z.of_nat (length l) + -1) 0)) with (length l - 1) by lia.
  now apply skipn_last.
Qed.

Lemma slice_at {A} (before after : list A) :
  slice (before ++ after) (Z.of_nat (length before)) = after.
Proof.
  unfold slice. destruct (Z.ltb_spec (Z.of_nat (length before)) 0); [lia|].
  rewrite length_app.
  replace (Z.to_nat (Z.min (Z.of_nat (length before))
                       (Z.of_nat (length before + length after))))
    with (length before) by lia.
  rewrite skipn_app, skipn_all, Nat.sub_diag. reflexivity.
Qed.

Lemma cleanResponse_no_def content :
  (forall l, In l (split (trim content) LF) ->
             startsWith (trim l) (lit "def") = false) ->
  Original.cleanResponse content = last (split (trim content) LF) [].
Proof.
  intros H. unfold Original.cleanResponse, findIndex. cbv zeta.
  rewrite findIndex_from_none by exact H.
  rewrite (slice_minus_one (split (trim content) LF) ([] : jsstring))
    by apply split_not_nil.
  reflexivity.
Qed.

Lemma cleanResponse_from_def content before l after :
  split (trim content) LF = before ++ l :: after ->
  (forall x, In x before -> startsWith (trim x) (lit "def") = false) ->
  startsWith (trim l) (lit "def") = true ->
  Original.cleanResponse content = join (l :: after) [LF].
Proof.
  intros E H Hl. unfold Original.cleanResponse, findIndex. cbv zeta. rewrite E.
  rewrite findIndex_from_first by assumption.
  rewrite Z.add_0_l, slice_at. reflexivity.
Qed.

(** C10.  [runOllamaPrompt] of [extension-original.js] returns the lines of
    the trimmed answer from the first line that, trimmed, starts with
    ["def"]; when no line does, it returns the last line of the trimmed
    answer alone, and all the lines before it are lost. *)
Theorem original_runOllamaPrompt_filter
  (W : Type) (chat : model W) (code content : jsstring) (w w' : W) :
  chat (Original.PROMPT_BEFORE_CODE ++ code ++ Original.PROMPT_AFTER_CODE) w
    = (Ok content, w') ->
  let lines := split (trim content) LF in
  let starts_def := fun l => startsWith (trim l) (lit "def") in
  (forall before l after,
      lines = before ++ l :: after ->
      (forall x, In x before -> starts_def x = false) ->
      starts_def l = true ->
      fst (Original.runOllamaPrompt W chat code (w, [])) = Ok (join (l :: after) [LF])) /\
  ((forall l, In l lines -> starts_def l = false) ->
      findIndex starts_def lines = (-1)%Z /\
      slice lines (-1) = [last lines []] /\
      fst (Original.runOllamaPrompt W chat code (w, [])) = Ok (last lines [])).
Proof.
  intros Hc lines starts_def.
  assert (E : fst (Original.runOllamaPrompt W chat code (w, []))
              = Ok (Original.cleanResponse content)).
  { cbv [Original.runOllamaPrompt bind try_catch ret throw ollama_chat fst snd].
    rewrite Hc. reflexivity. }
  split.
  - intros before l after El Hb Hl. rewrite E. f_equal.
    now apply cleanResponse_from_def with (before := before).
  - intros Hn. split; [|split].
    + now apply findIndex_from_none.
    + apply slice_minus_one, split_not_nil.
    + rewrite E. f_equal. now apply cleanResponse_no_def.
Qed.

Lemma original_runOllamaPrompt_filter_witness :
  split (trim ANSWER_WITHOUT_DEF) LF
    = [lit "Here is the fixed code:"; lit "x = 1"; lit "print(x)"] /\
  fst (Original.runOllamaPrompt unit (constant_model ANSWER_WITHOUT_DEF)
         (lit "x = 1; print(x") (tt, []))
    = Ok (lit "print(x)").
Proof.
  split; [reflexivity|].
  refine (proj2 (proj2 (proj2
    (original_runOllamaPrompt_filter unit (constant_model ANSWER_WITHOUT_DEF)
       (lit "x = 1; print(x") ANSWER_WITHOUT_DEF tt tt eq_refl) _))).
  intros l Hl. cbn in Hl.
  destruct Hl as [<- | [<- | [<- | []]]]; reflexivity.
Defined.

(** ** The regular-expression matcher *)

Lemma plus_class_sound p s k v :
  plus_class p s k = Some v ->
  exists w s', s = w ++ s' /\ w <> [] /\ all p w /\ k s' = Some v.
Proof.
  revert v; induction s as [|c s IH]; intros v; cbn [plus_class]; [discriminate|].
  destruct (p c) eqn:Hc; [|discriminate].
  destruct (plus_class p s k) as [v'|] eqn:E.
  - intros [= <-]. destruct (IH v' eq_refl) as (w & s' & -> & _ & Hw & Hk).
    exists (c :: w), s'. repeat split; try assumption; try discriminate.
    now constructor.
  - intros Hk. exists [c], s. repeat split; try assumption; try discriminate.
    now repeat constructor.
Qed.

Lemma plus_class_complete p w s' k :
  w <> [] -> all p w -> k s' <> None -> plus_class p (w ++ s') k <> None.
Proof.
  induction w as [|c w IH]; intros Hne Hw Hk; [congruence|].
  inversion Hw as [|? ? Hc Hw']; subst.
  cbn [app plus_class]. rewrite Hc.
  destruct w as [|c' w].
  - cbn [app]. destruct (plus_class p s' k); [discriminate | exact Hk].
  - specialize (IH ltac:(discriminate) Hw' Hk).
    destruct (plus_class p ((c' :: w) ++ s') k); [discriminate | contradiction].
Qed.

(** The greedy quantifier takes the whole run of the class when the
    continuation accepts what follows the run. *)
Lemma plus_class_greedy p w s' k v :
  w <> [] -> all p w -> plus_class p s' k = None -> k s' = Some v ->
  plus_class p (w ++ s') k = Some v.
Proof.
  induction w as [|c w IH]; intros Hne Hw Hstop Hk; [congruence|].
  inversion Hw as [|? ? Hc Hw']; subst.
  cbn [app plus_class]. rewrite Hc.
  destruct w as [|c' w].
  - cbn [app]. now rewrite Hstop.
  - now rewrite (IH ltac:(discriminate) Hw' Hstop Hk).
Qed.

Lemma rmatch_sound r : forall s caps k v,
  rmatch r s caps k = Some v ->
  exists w s' caps',
    s = w ++ s' /\ lang r w /\ length caps' = length caps + groups r /\
    k s' caps' = Some v.
Proof.
  induction r as [|p|r1 IH1 r2 IH2|p|r1 IH1]; intros s caps k v H;
    cbn [rmatch] in H; cbn [lang groups].
  - exists [], s, caps. repeat split; auto.
  - destruct s as [|c s]; [discriminate|].
    destruct (p c) eqn:Hc; [|discriminate].
    exists [c], s, caps. repeat split; auto. now exists c.
  - apply IH1 in H. destruct H as (w1 & s1 & caps1 & -> & L1 & N1 & H).
    apply IH2 in H. destruct H as (w2 & s2 & caps2 & -> & L2 & N2 & H).
    exists (w1 ++ w2), s2, caps2. rewrite <- app_assoc.
    repeat split; [now exists w1, w2 | lia | exact H].
  - apply plus_class_sound in H. destruct H as (w & s' & -> & Hne & Hw & H).
    exists w, s', caps. repeat split; auto.
  - apply IH1 in H. destruct H as (w & s' & caps' & -> & L1 & N1 & H).
    eexists w, s', _. repeat split; [exact L1 | | exact H].
    rewrite length_app. cbn [length]. lia.
Qed.

Lemma rmatch_complete r : forall w s' caps k,
  lang r w -> (forall caps', k s' caps' <> None) ->
  rmatch r (w ++ s') caps k <> None.
Proof.
  induction r as [|p|r1 IH1 r2 IH2|p|r1 IH1]; intros w s' caps k L Hk;
    cbn [lang] in L; cbn [rmatch].
  - subst w. apply Hk.
  - destruct L as (c & -> & Hc). cbn [app]. rewrite Hc. apply Hk.
  - destruct L as (w1 & w2 & -> & L1 & L2). rewrite <- app_assoc.
    apply IH1; [exact L1|]. intros caps'. now apply IH2.
  - destruct L as [Hne Hw]. apply plus_class_complete; auto.
  - apply IH1; [exact L|]. intros caps'. apply Hk.
Qed.

Lemma match_here_sound r s caps :
  match_here r s = Some caps ->
  length caps = groups r /\ exists w post, s = w ++ post /\ lang r w.
Proof.
  intros H. apply rmatch_sound in H.
  destruct H as (w & s' & caps' & -> & L & N & [= ->]).
  split; [exact N | now exists w, s'].
Qed.

Lemma match_here_complete r w post :
  lang r w -> match_here r (w ++ post) <> None.
Proof.
  intros L. apply rmatch_complete; [exact L | discriminate].
Qed.

(** [match] finds a match exactly when some part of the string is in the
    language of the pattern, and then it captures every group. *)
Lemma regex_match_sound r s caps :
  regex_match r s = Some caps ->
  length caps = groups r /\ exists pre w post, s = pre ++ w ++ post /\ lang r w.
Proof.
  induction s as [|c s IH]; cbn [regex_match].
  - destruct (match_here r []) as [v|] eqn:E; [|discriminate].
    intros [= <-]. apply match_here_sound in E.
    destruct E as [N (w & post & E & L)]. split; [exact N|].
    now exists [], w, post.
  - destruct (match_here r (c :: s)) as [v|] eqn:E.
    + intros [= <-]. apply match_here_sound in E.
      destruct E as [N (w & post & E & L)]. split; [exact N|].
      now exists [], w, post.
    + intros H. destruct (IH H) as [N (pre & w & post & -> & L)].
      split; [exact N|]. now exists (c :: pre), w, post.
Qed.

Lemma regex_match_complete r pre w post :
  lang r w -> regex_match r (pre ++ w ++ post) <> None.
Proof.
  intros L. induction pre as [|c pre IH].
  - cbn [app]. pose proof (match_here_complete r w post L) as H.
    destruct (w ++ post) as [|c s]; cbn [regex_match];
      destruct (match_here r _); congruence.
  - cbn [app regex_match].
    destruct (match_here r (c :: pre ++ w ++ post)); [discriminate | exact IH].
Qed.

(** ** The pattern of a linter line *)

Lemma lang_class_cons p c r w :
  p c = true -> lang r w -> lang (Cat (Class p) r) (c :: w).
Proof.
  intros Hc L. cbn [lang]. exists [c], w. repeat split; auto. now exists c.
Qed.

Lemma lang_cat_app r1 r2 w1 w2 :
  lang r1 w1 -> lang r2 w2 -> lang (Cat r1 r2) (w1 ++ w2).
Proof. intros L1 L2. cbn [lang]. now exists w1, w2. Qed.

Lemma four_digits d4 :
  length d4 = 4 -> all is_digit d4 ->
  exists a b c d, d4 = [a; b; c; d] /\
    is_digit a = true /\ is_digit b = true /\ is_digit c = true /\ is_digit d = true.
Proof.
  intros Hl Hd.
  destruct d4 as [|a [|b [|c [|d [|e d4]]]]]; try discriminate.
  inversion Hd as [|? ? Ha Hd1]; subst. inversion Hd1 as [|? ? Hb Hd2]; subst.
  inversion Hd2 as [|? ? Hc Hd3]; subst. inversion Hd3 as [|? ? Hd' _]; subst.
  now exists a, b, c, d.
Qed.

(** The strings of the pattern [/:(\d+):(\d+):\s([A-Z]\d{4}):\s(.+)/]. *)
Lemma lang_PYLINT_LINE w :
  lang PYLINT_LINE w <->
  exists ln cn s1 L d4 s2 msg,
    w = COLON :: ln ++ COLON :: cn ++ COLON :: s1 :: L :: d4 ++ COLON :: s2 :: msg /\
    digits ln /\ digits cn /\ is_space s1 = true /\ cls_upper L = true /\
    length d4 = 4 /\ all is_digit d4 /\ is_space s2 = true /\
    msg <> [] /\ all cls_dot msg.
Proof.
  split.
  - unfold PYLINT_LINE. cbn [lang times]. intros H.
    repeat match goal with
           | H : exists _, _ |- _ => destruct H
           | H : _ /\ _ |- _ => destruct H
           end.
    subst. unfold cls_char in *.
    repeat match goal with
           | H : (_ =? COLON)%N = true |- _ => apply N.eqb_eq in H; subst
           end.
    match goal with
    | |- context [ [COLON] ++ ?ln ++ [COLON] ++ ?cn ++ [COLON] ++ [?s1]
                     ++ ([?L] ++ [?a] ++ [?b] ++ [?c] ++ [?d]) ++ [COLON]
                     ++ [?s2] ++ ?msg ] =>
        exists ln, cn, s1, L, [a; b; c; d], s2, msg
    end.
    repeat split; auto; try (repeat constructor; assumption).
  - intros (ln & cn & s1 & L & d4 & s2 & msg & -> & Hln & Hcn & Hs1 & HL & H4 & Hd4
            & Hs2 & Hne & Hmsg).
    destruct (four_digits d4 H4 Hd4) as (a & b & c & d & -> & Ha & Hb & Hc & Hd).
    unfold PYLINT_LINE. cbn [times].
    apply lang_class_cons; [apply N.eqb_refl|].
    apply lang_cat_app; [exact Hln|].
    apply lang_class_cons; [apply N.eqb_refl|].
    apply lang_cat_app; [exact Hcn|].
    apply lang_class_cons; [apply N.eqb_refl|].
    apply lang_class_cons; [exact Hs1|].
    change (L :: [a; b; c; d] ++ COLON :: s2 :: msg)
      with ([L; a; b; c; d] ++ COLON :: s2 :: msg).
    apply lang_cat_app.
    { cbn [lang]. exists [L], [a; b; c; d]. split; [reflexivity|].
      split; [exists L; split; [reflexivity | exact HL]|].
      exists [a], [b; c; d]. split; [reflexivity|].
      split; [exists a; split; [reflexivity | exact Ha]|].
      exists [b], [c; d]. split; [reflexivity|].
      split; [exists b; split; [reflexivity | exact Hb]|].
      exists [c], [d]. split; [reflexivity|].
      split; [exists c; split; [reflexivity | exact Hc]|].
      exists d; split; [reflexivity | exact Hd]. }
    apply lang_class_cons; [apply N.eqb_refl|].
    apply lang_class_cons; [exact Hs2|].
    cbn [lang]. now split.
Qed.

(** Every match of the pattern captures its four groups, so the callback
    answers [null] exactly when [match] does. *)
Lemma parseLine_none_iff l :
  parseLine l = None <-> regex_match PYLINT_LINE l = None.
Proof.
  unfold parseLine.
  destruct (regex_match PYLINT_LINE l) as [caps|] eqn:E; [|tauto].
  apply regex_match_sound in E. destruct E as [N _].
  destruct caps as [|a [|b [|c [|d [|e caps]]]]]; try discriminate N.
  split; discriminate.
Qed.

Lemma parseLine_matched_shape l :
  parseLine l <> None <-> matched_shape l.
Proof.
  rewrite parseLine_none_iff. split.
  - destruct (regex_match PYLINT_LINE l) as [caps|] eqn:E; [|congruence].
    intros _. apply regex_match_sound in E.
    destruct E as [_ (pre & w & post & -> & L)].
    apply lang_PYLINT_LINE in L.
    destruct L as (ln & cn & s1 & L & d4 & s2 & msg & -> & Hln & Hcn & Hs1 & HL
                   & H4 & Hd4 & Hs2 & Hne & Hmsg).
    destruct msg as [|c msg]; [congruence|].
    inversion Hmsg as [|? ? Hc _]; subst.
    exists pre, ln, cn, s1, L, d4, s2, c, (msg ++ post).
    split; [cbn [app]; repeat (rewrite <- app_assoc; cbn [app]); reflexivity|].
    unfold cls_dot in Hc. apply negb_true_iff in Hc.
    repeat split; solve [assumption | apply Hln | apply Hcn].
  - intros (pre & ln & cn & s1 & L & d4 & s2 & c & msg & -> & Hln & Hcn & Hs1 & HL
            & H4 & Hd4 & Hs2 & Hc).
    assert (Lw : lang PYLINT_LINE
                   (COLON :: ln ++ COLON :: cn ++ COLON :: s1 :: L :: d4
                          ++ COLON :: s2 :: [c])).
    { apply lang_PYLINT_LINE.
      exists ln, cn, s1, L, d4, s2, [c].
      repeat split; try solve [assumption | apply Hln | apply Hcn | discriminate].
      constructor; [|constructor]. unfold cls_dot. now rewrite Hc. }
    pose proof (regex_match_complete PYLINT_LINE pre _ msg Lw) as H.
    cbn [app] in H. repeat (rewrite <- app_assoc in H; cbn [app] in H).
    exact H.
Qed.

(** The callback of the map gives a record exactly for the lines of the
    shape. *)
Lemma parseLine_record_iff_shape (l : jsstring) :
  (parseLine l <> None <-> matched_shape l) /\
  (parseLine l = None <-> ~ matched_shape l).
Proof.
  pose proof (parseLine_matched_shape l) as H. split; [exact H|].
  destruct (parseLine l); split; intros H'; try congruence.
  - elim H'. apply H. discriminate.
  - intros S. apply H in S. congruence.
Qed.

(** ** Decimal numbers *)

Lemma digit_not_space c : is_digit c = true -> is_space c = false.
Proof.
  unfold is_digit, is_space, is_line_terminator, LF, CR, LS, PS.
  rewrite andb_true_iff, !N.leb_le. intros [H1 H2].
  repeat match goal with
         | |- context [(c =? ?k)%N] => destruct (N.eqb_spec c k); [lia|]
         end.
  destruct (N.leb_spec 8192 c); [lia|]. reflexivity.
Qed.

Lemma digit_unit d :
  (d < 10)%N ->
  is_digit (48 + d)%N = true /\ (Z.of_N (48 + d) - 48 = Z.of_N d)%Z.
Proof.
  intros H. unfold is_digit. split; [|lia].
  apply andb_true_iff. split; apply N.leb_le; lia.
Qed.

Lemma decimal_spec f : forall n,
  (n < 2 ^ N.of_nat (S f))%N ->
  decimal (S f) n <> [] /\ all is_digit (decimal (S f) n) /\
  forall rest, digits_value (decimal (S f) n ++ rest) 0
               = digits_value rest (Z.of_N n).
Proof.
  induction f as [|f IH]; intros n Hn.
  - assert (Hs : (n < 10)%N) by (cbn in Hn; lia).
    cbn [decimal]. apply N.ltb_lt in Hs. rewrite Hs. apply N.ltb_lt in Hs.
    destruct (digit_unit (n mod 10)%N) as [Hd Hv]; [now apply N.mod_lt|].
    cbn [app]. split; [discriminate|]. split; [now repeat constructor|].
    intros rest. cbn [digits_value]. rewrite Hd, Hv. f_equal.
    rewrite N.mod_small by exact Hs. lia.
  - change (decimal (S (S f)) n)
      with ((if (n <? 10)%N then [] else decimal (S f) (n / 10))
              ++ [(48 + n mod 10)%N]).
    destruct (digit_unit (n mod 10)%N) as [Hd Hv]; [now apply N.mod_lt|].
    destruct (N.ltb_spec n 10) as [Hs | Hs].
    + cbn [app]. split; [discriminate|]. split; [now repeat constructor|].
      intros rest. cbn [digits_value]. rewrite Hd, Hv. f_equal.
      rewrite N.mod_small by exact Hs. lia.
    + assert (Hq : (n / 10 < 2 ^ N.of_nat (S f))%N).
      { rewrite Nat2N.inj_succ, N.pow_succ_r' in Hn.
        apply N.Div0.div_lt_upper_bound. lia. }
      destruct (IH (n / 10)%N Hq) as (Hne & Hall & Hval).
      split; [intros E; now apply app_eq_nil in E as [_ [=]]|].
      split; [apply Forall_app; split; [exact Hall | now repeat constructor]|].
      intros rest. rewrite <- app_assoc, Hval. cbn [app digits_value].
      rewrite Hd, Hv. f_equal.
      pose proof (N.div_mod n 10 ltac:(lia)). lia.
Qed.

Lemma fmt_d_spec n :
  digits (fmt_d n) /\ digits_value (fmt_d n) 0 = Z.of_N n.
Proof.
  unfold fmt_d.
  assert (H : (n < 2 ^ N.of_nat (S (N.to_nat (N.log2 n))))%N).
  { rewrite Nat2N.inj_succ, N2Nat.id.
    destruct (N.eq_dec n 0) as [-> | Hn]; [reflexivity|].
    apply N.log2_spec. lia. }
  destruct (decimal_spec _ n H) as (Hne & Hall & Hval).
  split; [now split|].
  specialize (Hval []). now rewrite app_nil_r in Hval.
Qed.

Lemma parseInt10_digits s :
  digits s -> parseInt10 s = Int (digits_value s 0).
Proof.
  intros [Hne Hall]. destruct s as [|c s]; [congruence|].
  inversion Hall as [|? ? Hc _]; subst.
  unfold parseInt10. cbn [trimStart]. rewrite (digit_not_space c Hc).
  unfold is_digit in Hc. apply andb_true_iff in Hc as [H1 H2].
  apply N.leb_le in H1, H2.
  destruct (N.eqb_spec c 45); [lia|]. destruct (N.eqb_spec c 43); [lia|].
  assert (Hd : is_digit c = true)
    by (unfold is_digit; apply andb_true_iff; split; apply N.leb_le; lia).
  rewrite Hd. f_equal. lia.
Qed.

Lemma parseInt10_fmt_d n : parseInt10 (fmt_d n) = Int (Z.of_N n).
Proof.
  destruct (fmt_d_spec n) as [Hd Hv].
  now rewrite parseInt10_digits, Hv.
Qed.

(** ** Trimming around a line *)

Lemma trimStart_app_clean p c r :
  is_space c = false -> trimStart (p ++ c :: r) = trimStart p ++ c :: r.
Proof.
  intros Hc. induction p as [|x p IH]; cbn [app trimStart].
  - now rewrite Hc.
  - destruct (is_space x); [exact IH | reflexivity].
Qed.

Lemma trimEnd_app a b : trimEnd b <> [] -> trimEnd (a ++ b) = a ++ trimEnd b.
Proof.
  intros H. induction a as [|x a IH]; [reflexivity|].
  cbn [app trimEnd]. rewrite IH.
  destruct (a ++ trimEnd b) eqn:E; [|reflexivity].
  apply app_eq_nil in E. tauto.
Qed.

Lemma trimEnd_not_nil s :
  Exists (fun c => is_space c = false) s -> trimEnd s <> [].
Proof.
  induction 1 as [c s Hc | c s _ IH]; cbn [trimEnd].
  - destruct (trimEnd s); [now rewrite Hc | discriminate].
  - destruct (trimEnd s); [congruence | discriminate].
Qed.

Lemma trimStart_trimEnd s : trimStart (trimEnd s) = trimEnd (trimStart s).
Proof.
  induction s as [|c s IH]; [reflexivity|].
  destruct (is_space c) eqn:Hc.
  - cbn [trimStart]. rewrite Hc, <- IH. cbn [trimEnd].
    destruct (trimEnd s) as [|t ts]; [now rewrite Hc|].
    cbn [trimStart]. now rewrite Hc.
  - rewrite (trimStart_clean (c :: s)) by exact Hc.
    apply trimStart_clean, trimEnd_starts_clean. exact Hc.
Qed.

Lemma trim_trimEnd s : trim (trimEnd s) = trim s.
Proof.
  unfold trim. now rewrite trimStart_trimEnd, trimEnd_idem.
Qed.

Lemma Forall_trimStart (P : char16 -> Prop) s : Forall P s -> Forall P (trimStart s).
Proof.
  induction 1 as [|c s Hc Hs IH]; cbn [trimStart]; [constructor|].
  destruct (is_space c); [exact IH | now constructor].
Qed.

Lemma Forall_trimEnd (P : char16 -> Prop) s : Forall P s -> Forall P (trimEnd s).
Proof.
  induction 1 as [|c s Hc Hs IH]; cbn [trimEnd]; [constructor|].
  destruct (trimEnd s).
  - destruct (is_space c); now repeat constructor.
  - now constructor.
Qed.

Lemma split_no_sep s sep : ~ In sep s -> split s sep = [s].
Proof.
  induction s as [|c s IH]; intros H; [reflexivity|].
  cbn [split]. destruct (N.eqb_spec c sep) as [-> | _].
  - elim H. now left.
  - rewrite IH; [reflexivity|]. intros H'. apply H. now right.
Qed.

(** ** Matching a linter line *)

Lemma firstn_run (w r : jsstring) : firstn (length (w ++ r) - length r) (w ++ r) = w.
Proof.
  rewrite length_app. replace (length w + length r - length r) with (length w) by lia.
  rewrite firstn_app, firstn_all, Nat.sub_diag. cbn [firstn]. apply app_nil_r.
Qed.

Lemma regex_match_here r s caps :
  match_here r s = Some caps -> regex_match r s = Some caps.
Proof. intros H. destruct s; cbn [regex_match]; now rewrite H. Qed.

(** A match of the pattern starts with a colon. *)
Lemma regex_match_skip p s :
  ~ In COLON p -> regex_match PYLINT_LINE (p ++ s) = regex_match PYLINT_LINE s.
Proof.
  induction p as [|c p IH]; intros H; [reflexivity|].
  cbn [app regex_match].
  assert (E : match_here PYLINT_LINE (c :: p ++ s) = None).
  { unfold match_here, PYLINT_LINE. cbn [rmatch]. unfold cls_char at 1.
    destruct (N.eqb_spec c COLON) as [-> | _]; [|reflexivity].
    elim H. now left. }
  rewrite E. apply IH. intros H'. apply H. now right.
Qed.

Lemma plus_class_whole p w k v :
  w <> [] -> all p w -> k [] = Some v -> plus_class p w k = Some v.
Proof.
  intros Hne Hw Hk. rewrite <- (app_nil_r w).
  now apply plus_class_greedy.
Qed.

(** At a colon that starts a line of the shape, the pattern matches and
    captures the two numbers, the classifier and the rest of the line. *)
Lemma match_here_line ln cn s1 L d4 s2 msg :
  digits ln -> digits cn -> is_space s1 = true -> cls_upper L = true ->
  length d4 = 4 -> all is_digit d4 -> is_space s2 = true ->
  msg <> [] -> all cls_dot msg ->
  match_here PYLINT_LINE
    (COLON :: ln ++ COLON :: cn ++ COLON :: s1 :: L :: d4 ++ COLON :: s2 :: msg)
  = Some [ln; cn; L :: d4; msg].
Proof.
  intros [Hln1 Hln2] [Hcn1 Hcn2] Hs1 HL H4 Hd4 Hs2 Hm1 Hm2.
  destruct (four_digits d4 H4 Hd4) as (a & b & c & d & -> & Ha & Hb & Hc & Hd).
  unfold match_here, PYLINT_LINE. cbn [rmatch times app].
  unfold cls_char at 1. rewrite N.eqb_refl.
  apply plus_class_greedy; [exact Hln1 | exact Hln2 | reflexivity |].
  cbv beta iota. unfold cls_char at 1. rewrite N.eqb_refl.
  apply plus_class_greedy; [exact Hcn1 | exact Hcn2 | reflexivity |].
  cbv beta iota. unfold cls_char at 1. rewrite N.eqb_refl.
  unfold cls_space, cls_digit. rewrite Hs1, HL, Ha, Hb, Hc, Hd.
  unfold cls_char at 1. rewrite N.eqb_refl. rewrite Hs2.
  apply plus_class_whole; [exact Hm1 | exact Hm2 |].
  rewrite !firstn_run.
  change (L :: a :: b :: c :: d :: COLON :: s2 :: msg)
    with ([L; a; b; c; d] ++ COLON :: s2 :: msg).
  rewrite firstn_run. cbn [length]. rewrite Nat.sub_0_r, firstn_all.
  reflexivity.
Qed.

Lemma severity_of_classifier L d4 :
  (if startsWith (L :: d4) (lit "F") || startsWith (L :: d4) (lit "E") then Error
   else if startsWith (L :: d4) (lit "I") then Information
   else Warning) = severity_of_letter L.
Proof.
  unfold severity_of_letter.
  change (lit "F") with [70%N]. change (lit "E") with [69%N].
  change (lit "I") with [73%N].
  destruct d4; cbn [startsWith];
    rewrite !andb_true_r, (orb_comm (L =? 70)%N); reflexivity.
Qed.

(** The record of a line of the shape whose path holds no colon. *)
Lemma parseLine_line p ln cn s1 L d4 s2 msg :
  ~ In COLON p ->
  digits ln -> digits cn -> is_space s1 = true -> cls_upper L = true ->
  length d4 = 4 -> all is_digit d4 -> is_space s2 = true ->
  msg <> [] -> all cls_dot msg ->
  parseLine (p ++ COLON :: ln ++ COLON :: cn ++ COLON :: s1 :: L :: d4
               ++ COLON :: s2 :: msg)
  = Some {| line := parseInt10 ln; column := parseInt10 cn;
            message := trim msg; severity := severity_of_letter L |}.
Proof.
  intros Hp Hln Hcn Hs1 HL H4 Hd4 Hs2 Hm1 Hm2. unfold parseLine.
  rewrite regex_match_skip by exact Hp.
  rewrite (regex_match_here _ _ _
             (match_here_line ln cn s1 L d4 s2 msg Hln Hcn Hs1 HL H4 Hd4 Hs2 Hm1 Hm2)).
  now rewrite severity_of_classifier.
Qed.

Lemma In_trimStart c s : In c (trimStart s) -> In c s.
Proof.
  induction s as [|x s IH]; cbn [trimStart]; [trivial|].
  destruct (is_space x); [intros H; right; now apply IH | trivial].
Qed.

Lemma line_head_app (p a b : jsstring) (L : char16) (d4 m : jsstring) :
  p ++ COLON :: a ++ COLON :: b ++ COLON :: SPACE :: L :: d4 ++ COLON :: SPACE :: m
  = (p ++ COLON :: a ++ COLON :: b ++ COLON :: SPACE :: L :: d4 ++ [COLON; SPACE]) ++ m.
Proof. repeat (rewrite <- app_assoc; cbn [app]). reflexivity. Qed.

Lemma digit_not_LF s : all is_digit s -> Forall (fun c => c <> LF) s.
Proof.
  apply Forall_impl. intros c Hc ->. discriminate Hc.
Qed.

Lemma dot_not_LF s : all cls_dot s -> Forall (fun c => c <> LF) s.
Proof.
  apply Forall_impl. intros c Hc ->. discriminate Hc.
Qed.

Lemma line_no_LF (p a b : jsstring) (L : char16) (d4 m : jsstring) :
  Forall (fun c => c <> LF) p -> all is_digit a -> all is_digit b ->
  cls_upper L = true -> all is_digit d4 -> Forall (fun c => c <> LF) m ->
  ~ In LF (p ++ COLON :: a ++ COLON :: b ++ COLON :: SPACE :: L :: d4
             ++ COLON :: SPACE :: m).
Proof.
  intros Hp Ha Hb HL Hd Hm H.
  assert (HLnot : L <> LF) by (intros ->; discriminate HL).
  apply digit_not_LF in Ha, Hb, Hd.
  assert (F : Forall (fun c => c <> LF)
                (p ++ COLON :: a ++ COLON :: b ++ COLON :: SPACE :: L :: d4
                   ++ COLON :: SPACE :: m)).
  { repeat first [ assumption | apply Forall_app; split | apply Forall_cons ];
      discriminate. }
  rewrite Forall_forall in F. exact (F LF H eq_refl).
Qed.

(** C2 (as amended).  A line ["%s:%d:%d: %s%04d: %s"] whose path holds
    neither a colon nor a line feed, whose numbers are below [2^53], whose
    classifier is an upper-case letter [L] with four digits, and whose
    message holds no line terminator and at least one code unit that is not
    white space, yields exactly one record: its line and column are the two
    numbers, its message is the message trimmed, and its severity is Error
    when [L] is [E] or [F], Information when [L] is [I], Warning for any
    other letter.  The record has no field for the classifier. *)
Theorem parsedErrors_pylint_line
  (path : jsstring) (ln cn : N) (L : char16) (d4 msg : jsstring) :
  ~ In COLON path -> ~ In LF path ->
  (Z.of_N ln < 2 ^ 53)%Z -> (Z.of_N cn < 2 ^ 53)%Z ->
  cls_upper L = true -> length d4 = 4 -> all is_digit d4 ->
  all cls_dot msg -> Exists (fun c => is_space c = false) msg ->
  parsedErrors (pylint_line path ln cn L d4 msg)
  = [ {| line := Int (Z.of_N ln); column := Int (Z.of_N cn);
         message := trim msg; severity := severity_of_letter L |} ].
Proof.
  intros Hcolon Hlf _ _ HL H4 Hd4 Hdot Hmsg.
  destruct (fmt_d_spec ln) as [Hln _]. destruct (fmt_d_spec cn) as [Hcn _].
  pose proof (trimEnd_not_nil msg Hmsg) as Hne.
  assert (Ht : trim (pylint_line path ln cn L d4 msg)
               = trimStart path ++ COLON :: fmt_d ln ++ COLON :: fmt_d cn
                   ++ COLON :: SPACE :: L :: d4 ++ COLON :: SPACE :: trimEnd msg).
  { unfold trim, pylint_line.
    rewrite trimStart_app_clean by reflexivity.
    rewrite line_head_app, trimEnd_app by exact Hne.
    now rewrite <- line_head_app. }
  assert (Hno : ~ In LF (trim (pylint_line path ln cn L d4 msg))).
  { rewrite Ht. apply line_no_LF; try assumption.
    - apply Forall_forall. intros c Hc ->. apply Hlf. now apply In_trimStart.
    - apply Hln.
    - apply Hcn.
    - now apply Forall_trimEnd, dot_not_LF. }
  unfold parsedErrors. rewrite (split_no_sep _ LF Hno), Ht.
  cbn [map].
  rewrite parseLine_line; try assumption; try reflexivity.
  - cbn [filter_some]. now rewrite !parseInt10_fmt_d, trim_trimEnd.
  - intros H. apply Hcolon. now apply In_trimStart.
  - now apply Forall_trimEnd.
Qed.

Lemma parsedErrors_pylint_line_witness :
  pylint_line (lit "a.py") 12 4 69 (lit "0602") (lit "Undefined variable 'x'  ")
    = lit "a.py:12:4: E0602: Undefined variable 'x'  " /\
  parsedErrors (pylint_line (lit "a.py") 12 4 69 (lit "0602")
                  (lit "Undefined variable 'x'  "))
  = [ {| line := Int 12; column := Int 4;
         message := lit "Undefined variable 'x'"; severity := Error |} ].
Proof.
  split; [reflexivity|].
  refine (parsedErrors_pylint_line (lit "a.py") 12 4 69 (lit "0602")
            (lit "Undefined variable 'x'  ") _ _ _ _ _ _ _ _ _).
  - cbn. intuition discriminate.
  - cbn. intuition discriminate.
  - reflexivity.
  - reflexivity.
  - reflexivity.
  - reflexivity.
  - repeat constructor.
  - repeat constructor.
  - apply Exists_cons_hd. reflexivity.
Defined.

(** C2 (as stated) fails.  A line with an empty message yields no record;
    so does a line whose classifier letter is in lower case; a path that
    itself holds text of the shape is matched first, so that the record
    carries its numbers and takes the rest of the line for its message;
    and a carriage return inside the message cuts the message there. *)
Lemma parsedErrors_pylint_line_counterexample :
  (pylint_line (lit "a.py") 1 2 69 (lit "0001") [] = lit "a.py:1:2: E0001: " /\
   parsedErrors (pylint_line (lit "a.py") 1 2 69 (lit "0001") []) = []) /\
  (pylint_line (lit "a.py") 1 2 101 (lit "0001") (lit "msg") = lit "a.py:1:2: e0001: msg" /\
   parsedErrors (pylint_line (lit "a.py") 1 2 101 (lit "0001") (lit "msg")) = []) /\
  parsedErrors (pylint_line (lit "a:1:2: E0001: x") 5 6 87 (lit "0002") (lit "msg"))
    = [ {| line := Int 1; column := Int 2;
           message := lit "x:5:6: W0002: msg"; severity := Error |} ] /\
  parsedErrors (pylint_line (lit "a.py") 1 2 69 (lit "0001") (lit "a" ++ [CR] ++ lit "b"))
    = [ {| line := Int 1; column := Int 2; message := lit "a"; severity := Error |} ].
Proof. repeat split; vm_compute; reflexivity. Qed.

(** ** Lines without a match *)

Lemma split_app s b sep :
  split (s ++ b) sep
  = removelast (split s sep)
      ++ (last (split s sep) [] ++ hd [] (split b sep)) :: tl (split b sep).
Proof.
  induction s as [|c s IH].
  - cbn [app split removelast last].
    pose proof (split_not_nil b sep). now destruct (split b sep).
  - cbn [app split]. rewrite IH. pose proof (split_not_nil s sep) as Hs.
    destruct (c =? sep)%N.
    + destruct (split s sep) as [|h t]; [congruence | reflexivity].
    + destruct (split s sep) as [|h [|h' t]]; [congruence | reflexivity | reflexivity].
Qed.

Lemma split_lines_extended s b sep l' :
  In l' (split s sep) -> exists l y, In l (split (s ++ b) sep) /\ l = l' ++ y.
Proof.
  intros H. rewrite split_app.
  rewrite (app_removelast_last [] (split_not_nil s sep)) in H.
  apply in_app_or in H. destruct H as [H | [<- | []]].
  - exists l', []. rewrite app_nil_r. split; [apply in_or_app; now left | reflexivity].
  - eexists _, _. split; [apply in_or_app; right; left; reflexivity | reflexivity].
Qed.

Lemma split_lines_prefixed a s sep l' :
  In l' (split s sep) -> exists l x, In l (split (a ++ s) sep) /\ l = x ++ l'.
Proof.
  intros H. rewrite split_app.
  pose proof (split_not_nil s sep) as Hs.
  destruct (split s sep) as [|h t]; [congruence|].
  destruct H as [<- | H].
  - eexists _, _. split; [apply in_or_app; right; left; reflexivity | reflexivity].
  - exists l', []. split; [apply in_or_app; right; right; exact H | reflexivity].
Qed.

(** Every line of a part of a text lies within a line of the text. *)
Lemma split_lines_infix a s b sep l' :
  In l' (split s sep) ->
  exists l x y, In l (split (a ++ s ++ b) sep) /\ l = x ++ l' ++ y.
Proof.
  intros H.
  destruct (split_lines_extended s b sep l' H) as (l1 & y & H1 & ->).
  destruct (split_lines_prefixed a (s ++ b) sep _ H1) as (l & x & H2 & ->).
  now exists (x ++ l' ++ y), x, y.
Qed.

Lemma matched_shape_infix x l y : matched_shape l -> matched_shape (x ++ l ++ y).
Proof.
  intros (pre & ln & cn & s1 & L & d4 & s2 & c & msg & -> & H).
  exists (x ++ pre), ln, cn, s1, L, d4, s2, c, (msg ++ y).
  split; [|exact H].
  repeat (rewrite <- app_assoc; cbn [app]). reflexivity.
Qed.

Lemma parseLine_infix_none x l y : parseLine (x ++ l ++ y) = None -> parseLine l = None.
Proof.
  intros H. destruct (parseLine l) eqn:E; [|reflexivity].
  assert (S : matched_shape l) by (apply parseLine_matched_shape; congruence).
  apply (matched_shape_infix x l y), parseLine_matched_shape in S. congruence.
Qed.

Lemma filter_some_none {A B} (f : A -> option B) (l : list A) :
  (forall x, In x l -> f x = None) -> filter_some (map f l) = [].
Proof.
  induction l as [|x l IH]; intros H; [reflexivity|].
  cbn [map filter_some]. rewrite (H x (or_introl eq_refl)).
  apply IH. intros y Hy. apply H. now right.
Qed.

Lemma trimStart_all_space s : all is_space s -> trimStart s = [].
Proof.
  induction 1 as [|c s Hc _ IH]; [reflexivity|]. cbn [trimStart]. now rewrite Hc.
Qed.

Lemma parsedErrors_no_match raw :
  (forall l, In l (split raw LF) -> parseLine l = None) -> parsedErrors raw = [].
Proof.
  intros H. unfold parsedErrors. apply filter_some_none. intros l' Hl'.
  destruct (trim_infix raw) as (a & b & E).
  destruct (split_lines_infix a (trim raw) b LF l' Hl') as (l & x & y & Hl & ->).
  rewrite <- E in Hl. apply H in Hl. now apply parseLine_infix_none in Hl.
Qed.

(** C8.  [parsedErrors] is a total function; on a text none of whose lines
    matches it returns the empty list, in particular on the empty text, on
    a text of white space only and on ["random\nlines\n"]. *)
Theorem parsedErrors_without_matching_line :
  (forall raw, (forall l, In l (split raw LF) -> parseLine l = None) ->
               parsedErrors raw = []) /\
  (forall raw, all is_space raw -> parsedErrors raw = []) /\
  parsedErrors [] = [] /\
  parsedErrors (lit "random
lines
") = [].
Proof.
  split; [exact parsedErrors_no_match|]. split; [|split; reflexivity].
  intros raw H. unfold parsedErrors, trim.
  rewrite (trimStart_all_space raw H). reflexivity.
Qed.

Lemma parsedErrors_without_matching_line_witness :
  split (lit "************* Module a
Your code has been rated at 10.00/10
") LF = [lit "************* Module a";
         lit "Your code has been rated at 10.00/10"; []] /\
  parsedErrors (lit "************* Module a
Your code has been rated at 10.00/10
") = [].
Proof.
  split; [reflexivity|].
  apply (proj1 parsedErrors_without_matching_line).
  intros l Hl. cbn in Hl.
  destruct Hl as [<- | [<- | [<- | []]]]; reflexivity.
Defined.

(** ** The lines that give a record *)

Lemma In_filter_some {A} (l : list (option A)) (x : A) :
  In x (filter_some l) <-> In (Some x) l.
Proof.
  induction l as [|[a|] l IH]; cbn [filter_some In].
  - tauto.
  - rewrite IH. split; intros [H | H]; auto; left; congruence.
  - rewrite IH. split; [tauto | intros [H | H]; [discriminate | exact H]].
Qed.

Lemma In_parsedErrors raw r :
  In r (parsedErrors raw) <->
  exists l, In l (split (trim raw) LF) /\ parseLine l = Some r.
Proof.
  unfold parsedErrors. rewrite In_filter_some, in_map_iff.
  split; intros (l & H1 & H2); exists l; tauto.
Qed.

Lemma shaped_lines_count (lines : list jsstring) :
  shaped_lines lines (length (filter_some (map parseLine lines))).
Proof.
  induction lines as [|l lines IH]; [constructor|].
  cbn [map filter_some]. destruct (parseLine l) as [r|] eqn:E.
  - cbn [length]. apply shaped_hit; [|exact IH].
    apply parseLine_matched_shape. congruence.
  - apply shaped_miss; [|exact IH].
    intros S. apply parseLine_matched_shape in S. congruence.
Qed.

Lemma trim_keeps_absence c s : ~ In c s -> ~ In c (trim s).
Proof.
  intros H Hin. apply H. destruct (trim_infix s) as (a & b & E).
  rewrite E. apply in_or_app. right. apply in_or_app. now left.
Qed.

(** The records of a text that is one line. *)
Lemma parsedErrors_one_line l :
  ~ In LF l -> parsedErrors l = filter_some [parseLine (trim l)].
Proof.
  intros H. unfold parsedErrors.
  now rewrite (split_no_sep (trim l) LF (trim_keeps_absence LF l H)).
Qed.

(** C5 (as amended).  [parsedErrors] trims the whole output and splits it
    at the line feeds; each line of the result gives exactly one record
    when it contains: a colon, digits, a colon, digits, a colon and one
    white-space code unit, an upper-case letter with exactly four digits, a
    colon and one white-space code unit, and then at least one code unit
    that is not a line terminator; any other line gives no record.  An
    output that is one line gives a record exactly when the line, trimmed,
    contains that shape: white space at the end of the output is no
    message. *)
Theorem parsedErrors_record_iff_shape (raw : jsstring) :
  let lines := split (trim raw) LF in
  shaped_lines lines (length (parsedErrors raw)) /\
  (forall r, In r (parsedErrors raw) <->
             exists l, In l lines /\ matched_shape l /\ parseLine l = Some r) /\
  (forall l, In l lines -> matched_shape l ->
             exists r, parseLine l = Some r /\ In r (parsedErrors raw)) /\
  (~ In LF raw ->
   ((exists r, parsedErrors raw = [r]) <-> matched_shape (trim raw)) /\
   (parsedErrors raw = [] <-> ~ matched_shape (trim raw))).
Proof.
  intros lines. subst lines. split; [apply shaped_lines_count|].
  split; [|split].
  - intros r. rewrite In_parsedErrors. split.
    + intros (l & Hl & E). exists l. repeat split; try assumption.
      apply parseLine_matched_shape. congruence.
    + intros (l & Hl & _ & E). now exists l.
  - intros l Hl S. apply parseLine_matched_shape in S.
    destruct (parseLine l) as [r|] eqn:E; [|congruence].
    exists r. split; [reflexivity|]. apply In_parsedErrors. now exists l.
  - intros H. rewrite (parsedErrors_one_line raw H).
    pose proof (parseLine_matched_shape (trim raw)) as S.
    cbn [map filter_some]. destruct (parseLine (trim raw)) as [r|].
    + split; split; intros H'.
      * apply S. discriminate.
      * now exists r.
      * discriminate H'.
      * elim H'. apply S. discriminate.
    + split; split; intros H'.
      * destruct H' as [r H']. discriminate H'.
      * apply S in H'. congruence.
      * intros S'. apply S in S'. congruence.
      * reflexivity.
Qed.

Lemma parsedErrors_record_iff_shape_witness :
  ~ In LF (lit "a.py:1:2: E0001: bad  ") /\
  matched_shape (trim (lit "a.py:1:2: E0001: bad  ")) /\
  exists r, parsedErrors (lit "a.py:1:2: E0001: bad  ") = [r].
Proof.
  assert (H : ~ In LF (lit "a.py:1:2: E0001: bad  ")) by (cbn; intuition discriminate).
  assert (S : matched_shape (trim (lit "a.py:1:2: E0001: bad  "))).
  { exists (lit "a.py"), (lit "1"), (lit "2"), 32%N, 69%N, (lit "0001"), 32%N,
           98%N, (lit "ad").
    repeat split; try discriminate; repeat constructor. }
  split; [exact H|]. split; [exact S|].
  pose proof (parsedErrors_record_iff_shape (lit "a.py:1:2: E0001: bad  ")) as T.
  apply (proj2 (proj2 (proj2 T)) H). exact S.
Defined.

(** C5 (as stated) fails in both directions.  An output line with tabs
    where the specification has spaces is not of the stated shape and yet
    gives a record; a line of the stated shape whose remainder is a
    carriage return, or white space only, gives none. *)
Lemma parseLine_stated_shape_counterexample :
  (~ stated_shape LINE_WITH_TABS /\
   parsedErrors LINE_WITH_TABS
     = [ {| line := Int 1; column := Int 2; message := lit "bad";
            severity := Error |} ]) /\
  (stated_shape LINE_WITH_CR_MESSAGE /\ parsedErrors LINE_WITH_CR_MESSAGE = []) /\
  (stated_shape LINE_WITH_BLANK_MESSAGE /\ parsedErrors LINE_WITH_BLANK_MESSAGE = []).
Proof.
  split; [split | split; split].
  - intros (pre & ln & cn & L & d4 & msg & E & _).
    assert (H : In SPACE LINE_WITH_TABS).
    { rewrite E. rewrite !in_app_iff. cbn [In]. rewrite !in_app_iff. cbn [In].
      rewrite !in_app_iff. cbn [In]. tauto. }
    vm_compute in H. intuition discriminate.
  - vm_compute. reflexivity.
  - exists (lit "a.py"), (lit "1"), (lit "2"), 69%N, (lit "0001"), [CR].
    repeat split; try discriminate; repeat constructor.
  - vm_compute. reflexivity.
  - exists (lit "a.py"), (lit "1"), (lit "2"), 69%N, (lit "0001"), (lit " ").
    repeat split; try discriminate; repeat constructor.
  - vm_compute. reflexivity.
Qed.

(** * Further properties *)

(** ** The response extractor on every response *)

(** When [lastIndexOf] finds the pattern, it is at the place found and
    nowhere later. *)
Lemma lastIndexOf_from_found s pat : forall i r,
  pat <> [] -> (0 <= i)%Z ->
  lastIndexOf_from s pat i = r -> r <> (-1)%Z ->
  exists pre post,
    s = pre ++ pat ++ post /\ r = (i + Z.of_nat (length pre))%Z /\
    ~ occurs pat (tl (pat ++ post)).
Proof.
  intros i r Hne. revert i r.
  induction s as [|c s IH]; intros i r Hi E Hr; cbn [lastIndexOf_from] in E.
  - destruct (startsWith [] pat) eqn:Hs; [|congruence].
    apply startsWith_spec in Hs. destruct Hs as [post Hs].
    destruct pat; [congruence | discriminate].
  - destruct (Z.eqb_spec (lastIndexOf_from s pat (i + 1)) (-1)) as [En | Hn].
    + destruct (startsWith (c :: s) pat) eqn:Hs; [|congruence].
      apply startsWith_spec in Hs. destruct Hs as [post Hs].
      exists [], post. cbn [app length Z.of_nat]. repeat split; [exact Hs | lia |].
      rewrite <- Hs. cbn [tl].
      now apply (lastIndexOf_from_none s pat (i + 1)%Z ltac:(lia)).
    + destruct (IH (i + 1)%Z r ltac:(lia) E Hr) as (pre & post & -> & -> & Hl).
      exists (c :: pre), post. cbn [app length].
      repeat split; [lia | exact Hl].
Qed.

Lemma marker_last_split s :
  lastIndexOf s OUTPUT_MARKER <> (-1)%Z ->
  exists pre post, s = pre ++ OUTPUT_MARKER ++ post /\ ~ occurs OUTPUT_MARKER post.
Proof.
  intros H.
  destruct (lastIndexOf_from_found s OUTPUT_MARKER 0 _ ltac:(discriminate)
              ltac:(lia) eq_refl H) as (pre & post & E & _ & Hl).
  exists pre, post. split; [exact E|].
  intros Ho. apply Hl.
  replace (tl (OUTPUT_MARKER ++ post)) with (tl OUTPUT_MARKER ++ post ++ [])
    by (rewrite app_nil_r; reflexivity).
  now apply occurs_infix.
Qed.

(** The two cases of the extractors: no marker, or a last marker. *)
Lemma extractLastOutput_cases s :
  (~ occurs OUTPUT_MARKER s /\
   Ext.extractLastOutput s = trim s /\ Original.extractLastOutput s = []) \/
  (exists pre post,
     s = pre ++ OUTPUT_MARKER ++ post /\ ~ occurs OUTPUT_MARKER post /\
     Ext.extractLastOutput s = trim post /\
     Original.extractLastOutput s = trim post).
Proof.
  destruct (Z.eq_dec (lastIndexOf s OUTPUT_MARKER) (-1)) as [E | E].
  - left. apply lastIndexOf_none in E. split; [exact E|].
    split; [now apply Ext_extract_markerless | now apply Original_extract_markerless].
  - right. destruct (marker_last_split s E) as (pre & post & -> & Hn).
    exists pre, post. repeat split; try assumption.
    + now apply Ext_extract_after_last.
    + now apply Original_extract_after_last.
Qed.

Lemma trim_no_marker_infix a s b :
  ~ occurs OUTPUT_MARKER (a ++ s ++ b) -> ~ occurs OUTPUT_MARKER s.
Proof. intros H Ho. apply H. now apply occurs_infix. Qed.

Lemma extractLastOutput_trim_fixed s :
  trim (Ext.extractLastOutput s) = Ext.extractLastOutput s /\
  trim (Original.extractLastOutput s) = Original.extractLastOutput s.
Proof.
  destruct (extractLastOutput_cases s)
    as [(_ & -> & ->) | (pre & post & _ & _ & -> & ->)];
    split; try apply trim_idem; reflexivity.
Qed.

Lemma Ext_extract_no_marker s : ~ occurs OUTPUT_MARKER (Ext.extractLastOutput s).
Proof.
  destruct (extractLastOutput_cases s)
    as [(Hn & -> & _) | (pre & post & _ & Hn & -> & _)];
    now apply trim_no_occurrence.
Qed.

Lemma Original_extract_no_marker s :
  ~ occurs OUTPUT_MARKER (Original.extractLastOutput s).
Proof.
  destruct (extractLastOutput_cases s)
    as [(Hn & _ & ->) | (pre & post & _ & Hn & _ & ->)].
  - intros (pre & post & E). destruct pre; discriminate E.
  - now apply trim_no_occurrence.
Qed.

(** X1.  What the extractor returns has no white space at either end:
    trimming it again changes nothing, for every response, in the current
    extension file and in [extension-original.js]. *)
Theorem extractLastOutput_trimmed (s : jsstring) :
  trim (Ext.extractLastOutput s) = Ext.extractLastOutput s /\
  trim (Original.extractLastOutput s) = Original.extractLastOutput s.
Proof. apply extractLastOutput_trim_fixed. Qed.

(** X2.  What the extractor of the current extension file returns never
    holds the marker, so extracting twice is the same as extracting once,
    for every response (with or without markers). *)
Theorem Ext_extractLastOutput_idempotent (s : jsstring) :
  ~ occurs OUTPUT_MARKER (Ext.extractLastOutput s) /\
  Ext.extractLastOutput (Ext.extractLastOutput s) = Ext.extractLastOutput s.
Proof.
  pose proof (Ext_extract_no_marker s) as H. split; [exact H|].
  rewrite (Ext_extract_markerless _ H).
  apply (proj1 (extractLastOutput_trim_fixed s)).
Qed.

(** X3.  The extractor of [extension-original.js] is not idempotent: what
    it returns never holds the marker, so a second extraction returns the
    empty string, whatever the response was; extracting twice equals
    extracting once only where the first extraction is empty already, and
    not on ["Output: x = 1"]. *)
Theorem Original_extractLastOutput_not_idempotent :
  (forall s, ~ occurs OUTPUT_MARKER (Original.extractLastOutput s) /\
             Original.extractLastOutput (Original.extractLastOutput s) = []) /\
  (forall s, Original.extractLastOutput (Original.extractLastOutput s)
               = Original.extractLastOutput s
             <-> Original.extractLastOutput s = []) /\
  Original.extractLastOutput (lit "Output: x = 1") = lit "x = 1" /\
  Original.extractLastOutput (Original.extractLastOutput (lit "Output: x = 1"))
    <> Original.extractLastOutput (lit "Output: x = 1").
Proof.
  assert (T : forall s, Original.extractLastOutput (Original.extractLastOutput s) = []).
  { intros s. apply Original_extract_markerless, Original_extract_no_marker. }
  split; [|split; [|split]].
  - intros s. split; [apply Original_extract_no_marker | apply T].
  - intros s. rewrite T. split; intros H; now rewrite H.
  - reflexivity.
  - rewrite T. discriminate.
Qed.

(** X4.  The extractor never makes up text: what it returns is a part of
    the response in one piece, in both files. *)
Theorem extractLastOutput_part_of_response (s : jsstring) :
  (exists a b, s = a ++ Ext.extractLastOutput s ++ b) /\
  (exists a b, s = a ++ Original.extractLastOutput s ++ b).
Proof.
  destruct (extractLastOutput_cases s)
    as [(_ & -> & ->) | (pre & post & -> & _ & -> & ->)].
  - split; [apply trim_infix | now exists [], s].
  - destruct (trim_infix post) as (a & b & E).
    assert (H : exists a' b', pre ++ OUTPUT_MARKER ++ post = a' ++ trim post ++ b').
    { exists (pre ++ OUTPUT_MARKER ++ a), b. rewrite E at 1.
      now rewrite <- !app_assoc. }
    split; exact H.
Qed.

(** X5.  The two extractors differ only on responses without the marker:
    on a response that holds the marker they return the same text. *)
Theorem extractLastOutput_variants_agree (s : jsstring) :
  occurs OUTPUT_MARKER s ->
  Ext.extractLastOutput s = Original.extractLastOutput s.
Proof.
  intros H.
  destruct (extractLastOutput_cases s)
    as [(Hn & _) | (pre & post & _ & _ & -> & ->)]; [contradiction | reflexivity].
Qed.

Lemma extractLastOutput_variants_agree_witness :
  occurs OUTPUT_MARKER (lit "Output: x = 1 ") /\
  Ext.extractLastOutput (lit "Output: x = 1 ")
    = Original.extractLastOutput (lit "Output: x = 1 ").
Proof.
  assert (H : occurs OUTPUT_MARKER (lit "Output: x = 1 "))
    by (exists [], (lit " x = 1 "); reflexivity).
  split; [exact H|].
  exact (extractLastOutput_variants_agree _ H).
Defined.

(** ** Prompt rendering, in general and on the prompts of the source *)

Lemma indexOf_from_none s pat : forall i,
  (0 <= i)%Z -> (indexOf_from s pat i = (-1)%Z <-> ~ occurs pat s).
Proof.
  induction s as [|c s IH]; intros i Hi; rewrite indexOf_from_eq.
  - rewrite occurs_nil. destruct (startsWith [] pat); split; intros H.
    + lia.
    + now elim H.
    + discriminate.
    + reflexivity.
  - rewrite occurs_cons. specialize (IH (i + 1)%Z ltac:(lia)).
    destruct (startsWith (c :: s) pat); split; intros H.
    + lia.
    + elim H. now left.
    + intros [H1 | H1]; [discriminate | now apply IH in H1].
    + apply IH. tauto.
Qed.

Lemma indexOf_none s pat : indexOf s pat = (-1)%Z <-> ~ occurs pat s.
Proof. apply indexOf_from_none. lia. Qed.

(** A pattern that does not occur is not replaced, whatever the
    replacement holds. *)
Lemma replace_absent s pat r : ~ occurs pat s -> replace s pat r = s.
Proof.
  intros H. unfold replace. apply indexOf_none in H. now rewrite H.
Qed.

(** An occurrence of a pattern without line feed lies on one side of a
    line feed. *)
Lemma occurs_across_LF pat x y :
  ~ In LF pat -> occurs pat (x ++ LF :: y) -> occurs pat x \/ occurs pat y.
Proof.
  intros Hp (pre & post & E). symmetry in E.
  apply app_eq_app in E. destruct E as [l [[E1 E2] | [E1 E2]]].
  - destruct l as [|c l].
    + cbn [app] in E2. destruct pat as [|p pat].
      * left. exists x, []. cbn [app]. now rewrite app_nil_r.
      * injection E2 as <- _. elim Hp. now left.
    + injection E2 as _ ->. right. now exists l, post.
  - symmetry in E2. apply app_eq_app in E2.
    destruct E2 as [m [[E3 E4] | [E3 E4]]].
    + left. subst. now exists pre, m.
    + destruct m as [|c m].
      * left. rewrite app_nil_r in E3. subst. exists pre, []. now rewrite app_nil_r.
      * injection E4 as <- _. elim Hp. rewrite E3. apply in_or_app. right. now left.
Qed.

(** Rendering a prompt whose only placeholder is [{code}], on a line of
    its own. *)
Lemma formatPrompt_code_only A B code linterOutput :
  ~ occurs (lit "{code}") ((A ++ [LF]) ++ removelast (lit "{code}")) ->
  ~ occurs (lit "{linterOutput}") A ->
  ~ occurs (lit "{linterOutput}") B ->
  ~ In DOLLAR code -> ~ occurs (lit "{linterOutput}") code ->
  formatPrompt ((A ++ [LF]) ++ lit "{code}" ++ LF :: B) code linterOutput
  = (A ++ [LF]) ++ code ++ LF :: B.
Proof.
  intros H1 HA HB Hd Hc. unfold formatPrompt.
  rewrite replace_first_occurrence; [| discriminate | exact H1 | exact Hd].
  apply replace_absent. rewrite <- app_assoc. cbn [app].
  intros H. apply occurs_across_LF in H; [| cbn; intuition discriminate].
  destruct H as [H | H]; [contradiction|].
  apply occurs_across_LF in H; [| cbn; intuition discriminate].
  tauto.
Qed.

(** Rendering a prompt with both placeholders, [{code}] on a line of its
    own. *)
Lemma formatPrompt_both A B C code linterOutput :
  ~ occurs (lit "{code}") ((A ++ [LF]) ++ removelast (lit "{code}")) ->
  ~ occurs (lit "{linterOutput}") A ->
  ~ occurs (lit "{linterOutput}") (B ++ removelast (lit "{linterOutput}")) ->
  ~ In DOLLAR code -> ~ In DOLLAR linterOutput ->
  ~ occurs (lit "{linterOutput}") code ->
  formatPrompt ((A ++ [LF]) ++ lit "{code}" ++ (LF :: B) ++ lit "{linterOutput}" ++ C)
    code linterOutput
  = (A ++ [LF]) ++ code ++ (LF :: B) ++ linterOutput ++ C.
Proof.
  intros H1 HA HB Hd Hl Hc. apply formatPrompt_verbatim; try assumption.
  rewrite <- !app_assoc. cbn [app].
  intros H. apply occurs_across_LF in H; [| cbn; intuition discriminate].
  destruct H as [H | H]; [contradiction|].
  apply occurs_across_LF in H; [| cbn; intuition discriminate].
  tauto.
Qed.

(** Absence of a pattern in a given string, decided by [indexOf]. *)
Lemma absent_by_search s pat : indexOf s pat = (-1)%Z -> ~ occurs pat s.
Proof. apply indexOf_none. Qed.

(** X6.  When neither binding holds a [$] and the code does not bring an
    occurrence of [{linterOutput}] before the one of the template, the
    rendered prompt is the template with the two bindings in the place of
    the first occurrence of their placeholders, character for character. *)
Theorem formatPrompt_inserts_plain_bindings (a b c code linterOutput : jsstring) :
  ~ occurs (lit "{code}") (a ++ removelast (lit "{code}")) ->
  ~ occurs (lit "{linterOutput}")
      ((a ++ code ++ b) ++ removelast (lit "{linterOutput}")) ->
  ~ In DOLLAR code -> ~ In DOLLAR linterOutput ->
  formatPrompt (a ++ lit "{code}" ++ b ++ lit "{linterOutput}" ++ c) code linterOutput
  = a ++ code ++ b ++ linterOutput ++ c.
Proof. apply formatPrompt_verbatim. Qed.

Lemma formatPrompt_inserts_plain_bindings_witness :
  formatPrompt (lit "fix " ++ lit "{code}" ++ lit " using " ++ lit "{linterOutput}" ++ lit ".")
    (lit "d = {1: 2}") (lit "a.py:1:0: C0114: x")
  = lit "fix d = {1: 2} using a.py:1:0: C0114: x.".
Proof.
  refine (formatPrompt_inserts_plain_bindings (lit "fix ") (lit " using ") (lit ".")
            (lit "d = {1: 2}") (lit "a.py:1:0: C0114: x") _ _ _ _).
  - apply absent_by_search. reflexivity.
  - apply absent_by_search. reflexivity.
  - cbn. intuition discriminate.
  - cbn. intuition discriminate.
Defined.

(** X7.  A prompt that holds neither placeholder is sent as it is: the
    code and the linter output are ignored, whatever they hold. *)
Theorem formatPrompt_without_placeholders (prompt code linterOutput : jsstring) :
  ~ occurs (lit "{code}") prompt -> ~ occurs (lit "{linterOutput}") prompt ->
  formatPrompt prompt code linterOutput = prompt.
Proof.
  intros H1 H2. unfold formatPrompt.
  rewrite (replace_absent prompt _ code H1). now apply replace_absent.
Qed.

Lemma formatPrompt_without_placeholders_witness :
  formatPrompt (lit "/clear") (lit "x = '$&'") (lit "$$") = lit "/clear".
Proof.
  apply formatPrompt_without_placeholders; apply absent_by_search; reflexivity.
Defined.

(** The prompts of the source have [{code}] on a line of its own. *)
Lemma Ext_LOGIC_shape :
  Ext.LOGIC_FIX_PROMPT
  = (removelast (before_code Ext.LOGIC_FIX_PROMPT) ++ [LF]) ++ lit "{code}"
      ++ LF :: tl (after_code Ext.LOGIC_FIX_PROMPT).
Proof. vm_compute. reflexivity. Qed.

Lemma Ext_PYLINT_shape :
  Ext.PYLINT_FIX_PROMPT
  = (removelast (before_code Ext.PYLINT_FIX_PROMPT) ++ [LF]) ++ lit "{code}"
      ++ (LF :: tl (between_slots Ext.PYLINT_FIX_PROMPT)) ++ lit "{linterOutput}"
      ++ after_slots Ext.PYLINT_FIX_PROMPT.
Proof. vm_compute. reflexivity. Qed.

Lemma Ext1_LOGIC_shape :
  Ext1.LOGIC_FIX_PROMPT
  = (removelast (before_code Ext1.LOGIC_FIX_PROMPT) ++ [LF]) ++ lit "{code}"
      ++ LF :: tl (after_code Ext1.LOGIC_FIX_PROMPT).
Proof. vm_compute. reflexivity. Qed.

Lemma Ext1_SYNTAX_shape :
  Ext1.SYNTAX_FIX_PROMPT
  = (removelast (before_code Ext1.SYNTAX_FIX_PROMPT) ++ [LF]) ++ lit "{code}"
      ++ LF :: tl (after_code Ext1.SYNTAX_FIX_PROMPT).
Proof. vm_compute. reflexivity. Qed.

Lemma Ext1_PYLINT_shape :
  Ext1.PYLINT_FIX_PROMPT
  = (removelast (before_code Ext1.PYLINT_FIX_PROMPT) ++ [LF]) ++ lit "{code}"
      ++ (LF :: tl (between_slots Ext1.PYLINT_FIX_PROMPT)) ++ lit "{linterOutput}"
      ++ after_slots Ext1.PYLINT_FIX_PROMPT.
Proof. vm_compute. reflexivity. Qed.

Ltac searched := apply absent_by_search; vm_compute; reflexivity.

Ltac render_code_only shape :=
  rewrite shape at 1;
  rewrite formatPrompt_code_only; [ | searched | searched | searched | assumption .. ];
  reflexivity.

Ltac render_both shape :=
  rewrite shape at 1;
  rewrite formatPrompt_both; [ | searched | searched | searched | assumption .. ];
  rewrite <- ?app_assoc; reflexivity.

(** X8.  The prompts that the current extension file sends: when the code
    holds no [$] and no text [{linterOutput}], the first prompt is the
    fixed text of [LOGIC_FIX_PROMPT] with the code in the place of
    [{code}], whatever the linter output is; when the linter output holds
    no [$] either, the second prompt is the fixed text of
    [PYLINT_FIX_PROMPT] with the code and the linter output in their
    places. *)
Theorem Ext_prompts_rendered (code linterOutput : jsstring) :
  ~ In DOLLAR code -> ~ occurs (lit "{linterOutput}") code ->
  formatPrompt Ext.LOGIC_FIX_PROMPT code linterOutput
    = before_code Ext.LOGIC_FIX_PROMPT ++ code ++ after_code Ext.LOGIC_FIX_PROMPT /\
  (~ In DOLLAR linterOutput ->
   formatPrompt Ext.PYLINT_FIX_PROMPT code linterOutput
     = before_code Ext.PYLINT_FIX_PROMPT ++ code
         ++ between_slots Ext.PYLINT_FIX_PROMPT ++ linterOutput
         ++ after_slots Ext.PYLINT_FIX_PROMPT).
Proof.
  intros Hd Hc. split.
  - render_code_only Ext_LOGIC_shape.
  - intros Hl. render_both Ext_PYLINT_shape.
Qed.

Lemma Ext_prompts_rendered_witness :
  formatPrompt Ext.LOGIC_FIX_PROMPT (lit "x = 1") []
    = before_code Ext.LOGIC_FIX_PROMPT ++ lit "x = 1" ++ after_code Ext.LOGIC_FIX_PROMPT /\
  formatPrompt Ext.PYLINT_FIX_PROMPT (lit "x = 1") (lit "a.py:1:0: C0114: m")
    = before_code Ext.PYLINT_FIX_PROMPT ++ lit "x = 1"
        ++ between_slots Ext.PYLINT_FIX_PROMPT ++ lit "a.py:1:0: C0114: m"
        ++ after_slots Ext.PYLINT_FIX_PROMPT.
Proof.
  assert (Hd : ~ In DOLLAR (lit "x = 1")) by (cbn; intuition discriminate).
  assert (Hc : ~ occurs (lit "{linterOutput}") (lit "x = 1")) by searched.
  assert (Hl : ~ In DOLLAR (lit "a.py:1:0: C0114: m")) by (cbn; intuition discriminate).
  split.
  - exact (proj1 (Ext_prompts_rendered (lit "x = 1") [] Hd Hc)).
  - exact (proj2 (Ext_prompts_rendered (lit "x = 1") (lit "a.py:1:0: C0114: m") Hd Hc) Hl).
Defined.

(** X9.  The prompts that [extension-1.js] sends: when the code holds no
    [$] and no text [{linterOutput}], the prompts of the first two stages
    are the fixed texts of [LOGIC_FIX_PROMPT] and [SYNTAX_FIX_PROMPT] with
    the code in the place of [{code}]; when the linter output holds no [$]
    either, the third prompt is the fixed text of [PYLINT_FIX_PROMPT] with
    the code and the linter output in their places. *)
Theorem Ext1_prompts_rendered (code linterOutput : jsstring) :
  ~ In DOLLAR code -> ~ occurs (lit "{linterOutput}") code ->
  formatPrompt Ext1.LOGIC_FIX_PROMPT code linterOutput
    = before_code Ext1.LOGIC_FIX_PROMPT ++ code ++ after_code Ext1.LOGIC_FIX_PROMPT /\
  formatPrompt Ext1.SYNTAX_FIX_PROMPT code linterOutput
    = before_code Ext1.SYNTAX_FIX_PROMPT ++ code ++ after_code Ext1.SYNTAX_FIX_PROMPT /\
  (~ In DOLLAR linterOutput ->
   formatPrompt Ext1.PYLINT_FIX_PROMPT code linterOutput
     = before_code Ext1.PYLINT_FIX_PROMPT ++ code
         ++ between_slots Ext1.PYLINT_FIX_PROMPT ++ linterOutput
         ++ after_slots Ext1.PYLINT_FIX_PROMPT).
Proof.
  intros Hd Hc. split; [|split].
  - render_code_only Ext1_LOGIC_shape.
  - render_code_only Ext1_SYNTAX_shape.
  - intros Hl. render_both Ext1_PYLINT_shape.
Qed.

Lemma Ext1_prompts_rendered_witness :
  formatPrompt Ext1.SYNTAX_FIX_PROMPT (lit "x = 1") []
    = before_code Ext1.SYNTAX_FIX_PROMPT ++ lit "x = 1"
        ++ after_code Ext1.SYNTAX_FIX_PROMPT /\
  formatPrompt Ext1.PYLINT_FIX_PROMPT (lit "x = 1") (lit "a.py:1:0: C0114: m")
    = before_code Ext1.PYLINT_FIX_PROMPT ++ lit "x = 1"
        ++ between_slots Ext1.PYLINT_FIX_PROMPT ++ lit "a.py:1:0: C0114: m"
        ++ after_slots Ext1.PYLINT_FIX_PROMPT.
Proof.
  assert (Hd : ~ In DOLLAR (lit "x = 1")) by (cbn; intuition discriminate).
  assert (Hc : ~ occurs (lit "{linterOutput}") (lit "x = 1")) by searched.
  assert (Hl : ~ In DOLLAR (lit "a.py:1:0: C0114: m")) by (cbn; intuition discriminate).
  split.
  - exact (proj1 (proj2 (Ext1_prompts_rendered (lit "x = 1") [] Hd Hc))).
  - exact (proj2 (proj2 (Ext1_prompts_rendered (lit "x = 1")
                           (lit "a.py:1:0: C0114: m") Hd Hc)) Hl).
Defined.

(** ** Every run of the repair command *)

(** X10.  Every run of the repair command of the current extension file,
    whatever the model answers, ends with exactly one result on screen:
    one document or one error message, never both and never none.  The
    model is called at most twice, not at all without an active editor,
    and a document is shown only after two calls. *)
Theorem Ext_handler_single_outcome
  (W : Type) (chat : model W) (editor : option jsstring)
  (linterOutput : jsstring) (w : W) :
  let log := run (Ext.generateFixedCodeHandler W chat editor linterOutput) w in
  length (shown_documents log) + length (error_messages log) = 1 /\
  chat_calls log <= 2 /\
  (editor = None -> chat_calls log = 0) /\
  (shown_documents log <> [] -> chat_calls log = 2).
Proof.
  destruct editor as [code|]; run_handler.
  - next_answer chat; [next_answer chat|];
      cbn [shown_documents error_messages chat_calls length Nat.add];
      repeat split; try lia; try congruence.
  - cbn [shown_documents error_messages chat_calls length Nat.add].
    repeat split; try lia; congruence.
Qed.

(** X11.  Every run of the repair command of [extension-1.js] ends with
    exactly one result on screen, one document or one error message; the
    model is called at most three times, not at all without an active
    editor, and a document is shown only after three calls. *)
Theorem Ext1_handler_single_outcome
  (W : Type) (chat : model W) (editor : option jsstring)
  (linterOutput : jsstring) (w : W) :
  let log := run (Ext1.generateFixedCodeHandler W chat editor linterOutput) w in
  length (shown_documents log) + length (error_messages log) = 1 /\
  chat_calls log <= 3 /\
  (editor = None -> chat_calls log = 0) /\
  (shown_documents log <> [] -> chat_calls log = 3).
Proof.
  destruct editor as [code|]; run_handler.
  - next_answer chat; [next_answer chat; [next_answer chat|]|];
      cbn [shown_documents error_messages chat_calls length Nat.add];
      repeat split; try lia; try congruence.
  - cbn [shown_documents error_messages chat_calls length Nat.add].
    repeat split; try lia; congruence.
Qed.

(** X12.  Every run of the repair command of [extension-original.js] ends
    with exactly one result on screen, one document or one error message;
    the model is called at most once, and not at all without an active
    editor. *)
Theorem Original_handler_single_outcome
  (W : Type) (chat : model W) (editor : option jsstring) (w : W) :
  let log := run (Original.generateFixedCodeHandler W chat editor) w in
  length (shown_documents log) + length (error_messages log) = 1 /\
  chat_calls log <= 1 /\
  (editor = None -> chat_calls log = 0) /\
  (shown_documents log <> [] -> chat_calls log = 1).
Proof.
  destruct editor as [code|]; run_handler.
  - next_answer chat;
      cbn [shown_documents error_messages chat_calls length Nat.add];
      repeat split; try lia; try congruence.
  - cbn [shown_documents error_messages chat_calls length Nat.add].
    repeat split; try lia; congruence.
Qed.

(** ** The filter of [extension-original.js], continued *)

(** Splitting at line feeds and joining with line feeds gives the text
    back. *)
Lemma join_split s : join (split s LF) [LF] = s.
Proof.
  induction s as [|c s IH]; [reflexivity|].
  cbn [split]. pose proof (split_not_nil s LF) as Hn.
  destruct (N.eqb_spec c LF) as [-> | Hc].
  - destruct (split s LF) as [|h t]; [congruence|].
    change (join ([] :: h :: t) [LF]) with ([] ++ [LF] ++ join (h :: t) [LF]).
    now rewrite IH.
  - destruct (split s LF) as [|h t]; [congruence|].
    rewrite <- IH. destruct t; reflexivity.
Qed.

(** Joining the lines from some line on gives the end of the joined
    text. *)
Lemma join_skipn_suffix (l : list jsstring) sep : forall k,
  exists a, join l sep = a ++ join (skipn k l) sep.
Proof.
  induction l as [|x l IH]; intros k.
  - exists []. now destruct k.
  - destruct k as [|k]; [now exists []|].
    cbn [skipn]. destruct (IH k) as [a Ha].
    destruct l as [|y l].
    + exists x. destruct k; cbn; now rewrite app_nil_r.
    + exists (x ++ sep ++ a).
      change (join (x :: y :: l) sep) with (x ++ sep ++ join (y :: l) sep).
      rewrite Ha. now rewrite <- !app_assoc.
Qed.

Lemma cleanResponse_suffix content :
  exists a, trim content = a ++ Original.cleanResponse content.
Proof.
  unfold Original.cleanResponse, slice. cbv zeta.
  match goal with
  | |- context [skipn ?k (split (trim content) LF)] =>
      destruct (join_skipn_suffix (split (trim content) LF) [LF] k) as [a Ha]
  end.
  exists a. rewrite <- Ha. symmetry. apply join_split.
Qed.

(** Lines with a first line satisfying a test: the lines before the first
    such line, that line, and the lines after it. *)
Lemma first_satisfying {A} (p : A -> bool) (l : list A) :
  (exists x, In x l /\ p x = true) ->
  exists before x after,
    l = before ++ x :: after /\ (forall y, In y before -> p y = false) /\ p x = true.
Proof.
  induction l as [|y l IH]; intros (x & Hx & Hp); [contradiction|].
  destruct (p y) eqn:Hy.
  - exists [], y, l. repeat split; [intros ? [] | exact Hy].
  - destruct Hx as [-> | Hx]; [congruence|].
    destruct (IH (ex_intro _ x (conj Hx Hp))) as (b & z & a & -> & Hb & Hz).
    exists (y :: b), z, a. repeat split; [|exact Hz].
    intros u [<- | Hu]; [exact Hy | now apply Hb].
Qed.

Lemma startsWith_app s t pat :
  startsWith s pat = true -> startsWith (s ++ t) pat = true.
Proof.
  rewrite !startsWith_spec. intros [post ->]. exists (post ++ t).
  now rewrite app_assoc.
Qed.

Lemma trimStart_app_nonblank a b :
  trimStart a <> [] -> trimStart (a ++ b) = trimStart a ++ b.
Proof.
  induction a as [|c a IH]; cbn [trimStart app]; [congruence|].
  destruct (is_space c); [exact IH | reflexivity].
Qed.

(** A prefix without white space survives [trimEnd]. *)
Lemma trimEnd_startsWith pat : forall l,
  Forall (fun c => is_space c = false) pat ->
  startsWith l pat = true -> startsWith (trimEnd l) pat = true.
Proof.
  induction pat as [|p pat IH]; intros l Hp H.
  - now destruct (trimEnd l).
  - destruct l as [|c l]; [discriminate|]. cbn [startsWith] in H.
    apply andb_true_iff in H. destruct H as [Hc H]. apply N.eqb_eq in Hc. subst c.
    inversion Hp as [|? ? Hp1 Hp2]; subst.
    specialize (IH l Hp2 H). cbn [trimEnd].
    destruct (trimEnd l) as [|t ts].
    + rewrite Hp1. cbn [startsWith]. rewrite N.eqb_refl. cbn [andb].
      destruct pat; [reflexivity | discriminate IH].
    + cbn [startsWith]. now rewrite N.eqb_refl.
Qed.

(** A prefix without line feed lies in the first line. *)
Lemma hd_split_startsWith pat : forall s,
  ~ In LF pat ->
  startsWith s pat = true -> startsWith (hd [] (split s LF)) pat = true.
Proof.
  induction pat as [|p pat IH]; intros s Hp H.
  - now destruct (hd [] (split s LF)).
  - destruct s as [|c s]; [discriminate|]. cbn [startsWith] in H.
    apply andb_true_iff in H. destruct H as [Hc H]. apply N.eqb_eq in Hc. subst c.
    assert (Hp' : ~ In LF pat) by (intros Hi; apply Hp; now right).
    specialize (IH s Hp' H). cbn [split].
    destruct (N.eqb_spec p LF) as [-> | _]; [elim Hp; now left|].
    pose proof (split_not_nil s LF).
    destruct (split s LF) as [|h t]; [congruence|].
    cbn [hd] in *. cbn [startsWith]. now rewrite N.eqb_refl.
Qed.

(** X13.  The filter of [extension-original.js] only drops text from the
    front: what [runOllamaPrompt] returns is the end of the trimmed answer,
    and it is the whole trimmed answer when that starts with ["def"]. *)
Theorem original_filter_keeps_a_suffix (content : jsstring) :
  (exists dropped, trim content = dropped ++ Original.cleanResponse content) /\
  (startsWith (trim content) (lit "def") = true ->
   Original.cleanResponse content = trim content).
Proof.
  split; [apply cleanResponse_suffix|].
  intros H. pose proof (split_not_nil (trim content) LF) as Hn.
  destruct (split (trim content) LF) as [|l after] eqn:E; [congruence|].
  rewrite (cleanResponse_from_def content [] l after E).
  - rewrite <- E. apply join_split.
  - intros ? [].
  - apply trimEnd_startsWith; [repeat constructor|].
    assert (Hl : startsWith l (lit "def") = true).
    { change l with (hd [] (l :: after)). rewrite <- E.
      apply hd_split_startsWith; [cbn; intuition discriminate | exact H]. }
    rewrite trimStart_clean; [exact Hl|].
    destruct l as [|c l]; [exact I|]. cbn [starts_clean].
    cbn [startsWith lit list_ascii_of_string map] in Hl.
    apply andb_true_iff in Hl. destruct Hl as [Hc _]. apply N.eqb_eq in Hc.
    now subst c.
Qed.

Lemma original_filter_keeps_a_suffix_witness :
  startsWith (trim (lit "  def f():
    return 1
")) (lit "def") = true /\
  Original.cleanResponse (lit "  def f():
    return 1
") = lit "def f():
    return 1".
Proof.
  split; [reflexivity|].
  exact (proj2 (original_filter_keeps_a_suffix (lit "  def f():
    return 1
")) eq_refl).
Defined.

(** X14.  When some line of the trimmed answer, trimmed, starts with
    ["def"], what the filter returns starts with ["def"] once leading white
    space is set aside. *)
Theorem original_filter_starts_with_def (content : jsstring) :
  (exists l, In l (split (trim content) LF) /\
             startsWith (trim l) (lit "def") = true) ->
  startsWith (trimStart (Original.cleanResponse content)) (lit "def") = true.
Proof.
  intros H.
  apply (first_satisfying (fun l => startsWith (trim l) (lit "def"))) in H.
  destruct H as (before & l & after & E & Hb & Hl).
  rewrite (cleanResponse_from_def content before l after E Hb Hl).
  assert (Hs : startsWith (trimStart l) (lit "def") = true).
  { unfold trim in Hl. destruct (trimEnd_prefix (trimStart l)) as [b Eb].
    rewrite Eb. now apply startsWith_app. }
  assert (Hne : trimStart l <> []) by (intros E0; rewrite E0 in Hs; discriminate Hs).
  destruct after as [|x after].
  - exact Hs.
  - change (join (l :: x :: after) [LF]) with (l ++ [LF] ++ join (x :: after) [LF]).
    rewrite trimStart_app_nonblank by exact Hne. now apply startsWith_app.
Qed.

Lemma original_filter_starts_with_def_witness :
  startsWith (trimStart (Original.cleanResponse (lit "Sure:
  def f():
    return 1"))) (lit "def") = true.
Proof.
  apply original_filter_starts_with_def.
  exists (lit "  def f():"). split; [cbn; tauto | reflexivity].
Defined.

(** ** The repair command of [extension-1.js] and of
       [extension-original.js] *)

(** X15.  In [extension-1.js] a failure of the model in any of the three
    stages stops the pipeline there: the log ends with one error message
    that carries the message of the failure, the model has been called as
    many times as the failing stage's rank, the later stages do not run and
    no document is shown. *)
Theorem Ext1_pipeline_stage_failure
  (W : Type) (chat : model W) (code linterOutput : jsstring) (w : W) :
  let failure msg :=
    ShowErrorMessage (lit "Error generating fixed code: "
                      ++ lit "Error running Ollama prompt: " ++ msg) in
  let p1 := formatPrompt Ext1.LOGIC_FIX_PROMPT code [] in
  let log := run (Ext1.generateFixedCodeHandler W chat (Some code) linterOutput) w in
  (forall msg w1,
      chat p1 w = (Throw msg, w1) ->
      log = [ WithProgress (lit "Generating fixed code...");
              Report (lit "Fixing logical errors..."); Chat p1; failure msg ]) /\
  (forall r1 w1 msg w2,
      let p2 := formatPrompt Ext1.SYNTAX_FIX_PROMPT (trim r1) [] in
      chat p1 w = (Ok r1, w1) -> chat p2 w1 = (Throw msg, w2) ->
      log = [ WithProgress (lit "Generating fixed code...");
              Report (lit "Fixing logical errors..."); Chat p1;
              Report (lit "Fixing syntax errors..."); Chat p2; failure msg ]) /\
  (forall r1 w1 r2 w2 msg w3,
      let p2 := formatPrompt Ext1.SYNTAX_FIX_PROMPT (trim r1) [] in
      let p3 := formatPrompt Ext1.PYLINT_FIX_PROMPT (trim r2) linterOutput in
      chat p1 w = (Ok r1, w1) -> chat p2 w1 = (Ok r2, w2) ->
      chat p3 w2 = (Throw msg, w3) ->
      log = [ WithProgress (lit "Generating fixed code...");
              Report (lit "Fixing logical errors..."); Chat p1;
              Report (lit "Fixing syntax errors..."); Chat p2;
              Report (lit "Fixing remaining Pylint errors..."); Chat p3;
              failure msg ]).
Proof.
  intros failure p1 log. subst failure p1 log. split; [|split].
  - intros msg w1 H1. run_handler. answer H1. reflexivity.
  - intros r1 w1 msg w2 p2 H1 H2. subst p2.
    run_handler. answer H1. answer H2. reflexivity.
  - intros r1 w1 r2 w2 msg w3 p2 p3 H1 H2 H3. subst p2 p3.
    run_handler. answer H1. answer H2. answer H3. reflexivity.
Qed.

Lemma Ext1_pipeline_stage_failure_witness :
  run (Ext1.generateFixedCodeHandler nat third_call_fails (Some (lit "x=1")) (lit "lint")) 0
  = [ WithProgress (lit "Generating fixed code...");
      Report (lit "Fixing logical errors...");
      Chat (formatPrompt Ext1.LOGIC_FIX_PROMPT (lit "x=1") []);
      Report (lit "Fixing syntax errors...");
      Chat (formatPrompt Ext1.SYNTAX_FIX_PROMPT (lit "x = 1") []);
      Report (lit "Fixing remaining Pylint errors...");
      Chat (formatPrompt Ext1.PYLINT_FIX_PROMPT (lit "x = 2") (lit "lint"));
      ShowErrorMessage
        (lit "Error generating fixed code: Error running Ollama prompt: model not found") ].
Proof.
  exact (proj2 (proj2 (Ext1_pipeline_stage_failure nat third_call_fails
                         (lit "x=1") (lit "lint") 0))
           (lit "x = 1") 1 (lit "x = 2") 2 (lit "model not found") 3
           eq_refl eq_refl eq_refl).
Defined.

Lemma no_marker_suffix a s :
  ~ occurs OUTPUT_MARKER (a ++ s) -> ~ occurs OUTPUT_MARKER s.
Proof.
  intros H Ho. apply H. rewrite <- (app_nil_r s). now apply occurs_infix.
Qed.

(** X16.  In [extension-original.js] an answer of the model without the
    marker ["Output:"] leaves nothing to show: the filter keeps a part of
    the answer, the extractor finds no marker in it and returns the empty
    string, and the document opened is empty. *)
Theorem Original_handler_answer_without_marker
  (W : Type) (chat : model W) (code content : jsstring) (w w' : W) :
  let prompt := Original.PROMPT_BEFORE_CODE ++ code ++ Original.PROMPT_AFTER_CODE in
  chat prompt w = (Ok content, w') ->
  ~ occurs OUTPUT_MARKER content ->
  run (Original.generateFixedCodeHandler W chat (Some code)) w
  = [ WithProgress (lit "Generating fixed code..."); Chat prompt; ShowTextDocument [] ].
Proof.
  intros prompt Hc Hn. subst prompt. run_handler. answer Hc.
  rewrite Original_extract_markerless; [reflexivity|].
  destruct (cleanResponse_suffix content) as [a Ha].
  apply (no_marker_suffix a). rewrite <- Ha. now apply trim_no_occurrence.
Qed.

Lemma Original_handler_answer_without_marker_witness :
  run (Original.generateFixedCodeHandler unit
         (constant_model (lit "def f():
    return 1")) (Some (lit "def f(): return 2"))) tt
  = [ WithProgress (lit "Generating fixed code...");
      Chat (Original.PROMPT_BEFORE_CODE ++ lit "def f(): return 2"
              ++ Original.PROMPT_AFTER_CODE);
      ShowTextDocument [] ].
Proof.
  apply (Original_handler_answer_without_marker unit
           (constant_model (lit "def f():
    return 1")) (lit "def f(): return 2") (lit "def f():
    return 1") tt tt eq_refl).
  apply no_marker_by_search. reflexivity.
Defined.

(** X17.  Whatever the model answers, a document shown by the repair
    command of the current extension file has no white space at either end
    and does not hold the marker ["Output:"]. *)
Theorem Ext_shown_document_clean
  (W : Type) (chat : model W) (editor : option jsstring)
  (linterOutput : jsstring) (w : W) (d : jsstring) :
  In d (shown_documents
          (run (Ext.generateFixedCodeHandler W chat editor linterOutput) w)) ->
  trim d = d /\ ~ occurs OUTPUT_MARKER d.
Proof.
  destruct editor as [code|]; run_handler.
  - next_answer chat; [next_answer chat|]; cbn [shown_documents];
      intros H; try contradiction.
    destruct H as [<- | []]. split.
    + apply extractLastOutput_trim_fixed.
    + apply Ext_extract_no_marker.
  - cbn [shown_documents]. contradiction.
Qed.

Lemma Ext_shown_document_clean_witness :
  In (lit "AB!")
     (shown_documents
        (run (Ext.generateFixedCodeHandler nat example_model (Some (lit "ab")) []) 0)) /\
  trim (lit "AB!") = lit "AB!" /\ ~ occurs OUTPUT_MARKER (lit "AB!").
Proof.
  assert (H : In (lit "AB!")
     (shown_documents
        (run (Ext.generateFixedCodeHandler nat example_model (Some (lit "ab")) []) 0)))
    by (vm_compute; left; reflexivity).
  split; [exact H|].
  exact (Ext_shown_document_clean nat example_model (Some (lit "ab")) [] 0 (lit "AB!") H).
Defined.

(** ** The records of the parser *)

Lemma regex_match_found r l caps :
  regex_match r l = Some caps ->
  exists pre s, l = pre ++ s /\ match_here r s = Some caps.
Proof.
  induction l as [|c l IH]; cbn [regex_match].
  - destruct (match_here r []) eqn:E; [|discriminate].
    intros [= <-]. now exists [], [].
  - destruct (match_here r (c :: l)) eqn:E.
    + intros [= <-]. now exists [], (c :: l).
    + intros H. destruct (IH H) as (pre & s & -> & Hs).
      now exists (c :: pre), s.
Qed.

Lemma match_here_captures s caps :
  match_here PYLINT_LINE s = Some caps ->
  exists ln cn s1 L d4 s2 msg rest,
    s = COLON :: ln ++ COLON :: cn ++ COLON :: s1 :: L :: d4
          ++ COLON :: s2 :: msg ++ rest /\
    caps = [ln; cn; L :: d4; msg] /\
    digits ln /\ digits cn /\ is_space s1 = true /\ cls_upper L = true /\
    length d4 = 4 /\ all is_digit d4 /\ is_space s2 = true /\
    msg <> [] /\ all cls_dot msg.
Proof.
  unfold match_here, PYLINT_LINE. cbn [rmatch times]. intros H.
  destruct s as [|c0 s]; [discriminate|].
  destruct (cls_char COLON c0) eqn:E0; [|discriminate].
  apply plus_class_sound in H. destruct H as (ln & t1 & -> & Hln1 & Hln2 & H).
  destruct t1 as [|c1 t1]; [discriminate|].
  destruct (cls_char COLON c1) eqn:E1; [|discriminate].
  apply plus_class_sound in H. destruct H as (cn & t2 & -> & Hcn1 & Hcn2 & H).
  destruct t2 as [|c2 t2]; [discriminate|].
  destruct (cls_char COLON c2) eqn:E2; [|discriminate].
  destruct t2 as [|s1 t2]; [discriminate|].
  destruct (cls_space s1) eqn:Es1; [|discriminate].
  destruct t2 as [|L t2]; [discriminate|].
  destruct (cls_upper L) eqn:EL; [|discriminate].
  destruct t2 as [|a t2]; [discriminate|].
  destruct (cls_digit a) eqn:Ea; [|discriminate].
  destruct t2 as [|b t2]; [discriminate|].
  destruct (cls_digit b) eqn:Eb; [|discriminate].
  destruct t2 as [|c t2]; [discriminate|].
  destruct (cls_digit c) eqn:Ec; [|discriminate].
  destruct t2 as [|d t2]; [discriminate|].
  destruct (cls_digit d) eqn:Ed; [|discriminate].
  destruct t2 as [|c3 t2]; [discriminate|].
  destruct (cls_char COLON c3) eqn:E3; [|discriminate].
  destruct t2 as [|s2 t2]; [discriminate|].
  destruct (cls_space s2) eqn:Es2; [|discriminate].
  apply plus_class_sound in H. destruct H as (msg & rest & -> & Hm1 & Hm2 & H).
  rewrite !firstn_run in H.
  change (L :: a :: b :: c :: d :: c3 :: s2 :: msg ++ rest)
    with ([L; a; b; c; d] ++ c3 :: s2 :: msg ++ rest) in H.
  rewrite firstn_run in H. cbn [app] in H. injection H as <-.
  unfold cls_char in E0, E1, E2, E3.
  apply N.eqb_eq in E0, E1, E2, E3. subst c0 c1 c2 c3.
  exists ln, cn, s1, L, [a; b; c; d], s2, msg, rest.
  repeat split; try assumption; try reflexivity.
  repeat constructor; assumption.
Qed.

Lemma digits_value_nonneg s : forall acc, (0 <= acc)%Z -> (0 <= digits_value s acc)%Z.
Proof.
  induction s as [|c s IH]; intros acc H; cbn [digits_value]; [exact H|].
  destruct (is_digit c) eqn:Hc; [|exact H].
  apply IH. unfold is_digit in Hc. apply andb_true_iff in Hc as [H1 _].
  apply N.leb_le in H1. lia.
Qed.

(** What a record is made of: the captures of a match in its line. *)
Lemma parseLine_record l r :
  parseLine l = Some r ->
  exists pre ln cn s1 L d4 s2 msg rest,
    l = pre ++ COLON :: ln ++ COLON :: cn ++ COLON :: s1 :: L :: d4
            ++ COLON :: s2 :: msg ++ rest /\
    digits ln /\ digits cn /\ cls_upper L = true /\ msg <> [] /\
    r = {| line := Int (digits_value ln 0); column := Int (digits_value cn 0);
           message := trim msg; severity := severity_of_letter L |}.
Proof.
  unfold parseLine. destruct (regex_match PYLINT_LINE l) as [caps|] eqn:E;
    [|discriminate].
  apply regex_match_found in E. destruct E as (pre & s & -> & E).
  apply match_here_captures in E.
  destruct E as (ln & cn & s1 & L & d4 & s2 & msg & rest & -> & -> & Hln & Hcn
                 & _ & HL & _ & _ & _ & Hm & _).
  rewrite severity_of_classifier, !parseInt10_digits by assumption.
  intros [= <-]. exists pre, ln, cn, s1, L, d4, s2, msg, rest.
  repeat split; solve [assumption | apply Hln | apply Hcn].
Qed.

(** X18.  Every record of the parser, on any text, has a line and a column
    that are numbers (never NaN) and not negative, a severity that is
    Error, Warning or Information (never Hint), and a message without
    white space at either end. *)
Theorem parsedErrors_records_well_formed (raw : jsstring) (r : ParsedError) :
  In r (parsedErrors raw) ->
  (exists n, line r = Int n /\ (0 <= n)%Z) /\
  (exists m, column r = Int m /\ (0 <= m)%Z) /\
  severity r <> Hint /\
  trim (message r) = message r.
Proof.
  intros H. apply In_parsedErrors in H. destruct H as (l & _ & H).
  apply parseLine_record in H.
  destruct H as (pre & ln & cn & s1 & L & d4 & s2 & msg & rest & _ & _ & _ & _ & _ & ->).
  cbn [line column severity message]. repeat split.
  - eexists. split; [reflexivity | now apply digits_value_nonneg].
  - eexists. split; [reflexivity | now apply digits_value_nonneg].
  - unfold severity_of_letter.
    destruct ((L =? 69) || (L =? 70))%N; [discriminate|].
    destruct (L =? 73)%N; discriminate.
  - apply trim_idem.
Qed.

Lemma parsedErrors_records_well_formed_witness :
  In {| line := Int 3; column := Int 0; message := lit "unused import os";
        severity := Warning |}
     (parsedErrors (lit "a.py:3:0: W0611:   unused import os  
")) /\
  trim (lit "unused import os") = lit "unused import os".
Proof.
  assert (H : In {| line := Int 3; column := Int 0;
                    message := lit "unused import os"; severity := Warning |}
                 (parsedErrors (lit "a.py:3:0: W0611:   unused import os  
"))) by (vm_compute; left; reflexivity).
  split; [exact H|].
  exact (proj2 (proj2 (proj2 (parsedErrors_records_well_formed _ _ H)))).
Defined.

(** ** Parsing line by line *)

Lemma split_app_sep x r sep :
  ~ In sep x -> split (x ++ sep :: r) sep = x :: split r sep.
Proof.
  induction x as [|c x IH]; intros H; cbn [app split].
  - now rewrite N.eqb_refl.
  - destruct (N.eqb_spec c sep) as [-> | _]; [elim H; now left|].
    rewrite IH; [reflexivity|]. intros H'. apply H. now right.
Qed.

(** Joining lines with line feeds and splitting at line feeds gives the
    lines back. *)
Lemma split_join (lines : list jsstring) :
  lines <> [] -> Forall (fun l => ~ In LF l) lines ->
  split (join lines [LF]) LF = lines.
Proof.
  induction lines as [|x lines IH]; intros Hne Hl; [congruence|].
  inversion Hl as [|? ? Hx Hl']; subst.
  destruct lines as [|y lines].
  - now apply split_no_sep.
  - change (join (x :: y :: lines) [LF]) with (x ++ LF :: join (y :: lines) [LF]).
    rewrite split_app_sep by exact Hx. now rewrite IH.
Qed.

Lemma join_cons x (l : list jsstring) sep :
  join (x :: l) sep = x ++ join_tail l sep.
Proof.
  destruct l as [|y l]; [|reflexivity]. cbn. now rewrite app_nil_r.
Qed.

Lemma join_last (l : list jsstring) sep :
  l <> [] -> exists front, join l sep = front ++ last l [].
Proof.
  induction l as [|x l IH]; intros H; [congruence|].
  destruct l as [|y l].
  - now exists [].
  - destruct (IH ltac:(discriminate)) as [f Hf].
    exists (x ++ sep ++ f).
    change (join (x :: y :: l) sep) with (x ++ sep ++ join (y :: l) sep).
    change (last (x :: y :: l) []) with (last (y :: l) []).
    rewrite Hf. now rewrite <- !app_assoc.
Qed.

Lemma trimStart_leading s :
  exists a, s = a ++ trimStart s /\ all is_space a.
Proof.
  induction s as [|c s (a & E & Ha)]; cbn [trimStart].
  - exists []. split; [reflexivity | constructor].
  - destruct (is_space c) eqn:Hc.
    + exists (c :: a). split; [cbn [app]; now rewrite <- E | now constructor].
    + exists []. split; [reflexivity | constructor].
Qed.

(** Leading white space of a line does not change its record. *)
Lemma parseLine_trimStart l : parseLine (trimStart l) = parseLine l.
Proof.
  destruct (trimStart_leading l) as (a & E & Ha).
  rewrite E at 2. unfold parseLine. rewrite regex_match_skip; [reflexivity|].
  intros Hin. unfold all in Ha. rewrite Forall_forall in Ha.
  specialize (Ha COLON Hin). discriminate Ha.
Qed.

Lemma trim_joined_lines x (lines : list jsstring) :
  trimStart x <> [] ->
  let l := last (x :: lines) [] in
  l <> [] -> trimEnd l = l ->
  trim (join (x :: lines) [LF]) = join (trimStart x :: lines) [LF].
Proof.
  intros Hx l Hl Hc. unfold trim.
  rewrite join_cons, trimStart_app_nonblank by exact Hx.
  rewrite <- join_cons.
  destruct (join_last (trimStart x :: lines) [LF] ltac:(discriminate)) as [f Hf].
  rewrite Hf.
  assert (Hlast : trimEnd (last (trimStart x :: lines) []) <> [] /\
                  trimEnd (last (trimStart x :: lines) [])
                  = last (trimStart x :: lines) []).
  { destruct lines as [|y lines].
    - cbn [last] in *. subst l.
      rewrite <- trimStart_trimEnd, Hc. split; [exact Hx | reflexivity].
    - change (last (trimStart x :: y :: lines) []) with (last (y :: lines) []).
      change (last (x :: y :: lines) []) with (last (y :: lines) []) in l.
      subst l. rewrite Hc. split; [exact Hl | reflexivity]. }
  destruct Hlast as [H1 H2]. rewrite trimEnd_app by exact H1. now rewrite H2.
Qed.

(** X19.  The parser works line by line and keeps the order of the lines:
    on a text of lines joined by line feeds, whose first line is not blank
    and whose last line is neither empty nor ends with white space, the
    records are those of the lines, line after line. *)
Theorem parsedErrors_line_by_line (x : jsstring) (lines : list jsstring) :
  Forall (fun l => ~ In LF l) (x :: lines) ->
  trimStart x <> [] ->
  last (x :: lines) [] <> [] ->
  trimEnd (last (x :: lines) []) = last (x :: lines) [] ->
  parsedErrors (join (x :: lines) [LF]) = filter_some (map parseLine (x :: lines)).
Proof.
  intros Hlf Hx Hl Hc. unfold parsedErrors.
  rewrite (trim_joined_lines x lines Hx Hl Hc).
  rewrite split_join; [| discriminate |].
  - cbn [map]. now rewrite parseLine_trimStart.
  - inversion Hlf as [|? ? H1 H2]; subst. constructor; [|exact H2].
    intros Hin. apply H1. now apply In_trimStart.
Qed.

Lemma parsedErrors_line_by_line_witness :
  parsedErrors (join [lit "************* Module a";
                      lit "a.py:1:0: C0114: Missing module docstring";
                      lit "a.py:2:4: E0602: Undefined variable 'y'"] [LF])
  = [ {| line := Int 1; column := Int 0;
         message := lit "Missing module docstring"; severity := Warning |};
      {| line := Int 2; column := Int 4;
         message := lit "Undefined variable 'y'"; severity := Error |} ].
Proof.
  refine (parsedErrors_line_by_line (lit "************* Module a")
            [lit "a.py:1:0: C0114: Missing module docstring";
             lit "a.py:2:4: E0602: Undefined variable 'y'"] _ _ _ _).
  - repeat constructor; cbn; intuition discriminate.
  - discriminate.
  - discriminate.
  - reflexivity.
Defined.

(** ** What a line's record does not depend on *)

(** X20.  The record of a line does not depend on the text before the
    first colon of the line: the path of the file is not kept, and two
    lines that differ only there give the same record. *)
Theorem parseLine_ignores_text_before_colon (p q rest : jsstring) :
  ~ In COLON p -> ~ In COLON q ->
  parseLine (p ++ rest) = parseLine (q ++ rest).
Proof.
  intros Hp Hq. unfold parseLine.
  now rewrite (regex_match_skip p rest Hp), (regex_match_skip q rest Hq).
Qed.

Lemma parseLine_ignores_text_before_colon_witness :
  parseLine (lit "src/a.py" ++ lit ":7:0: W0611: Unused import os")
  = parseLine (lit "b.py" ++ lit ":7:0: W0611: Unused import os").
Proof.
  apply parseLine_ignores_text_before_colon; cbn; intuition discriminate.
Defined.

(** The match at the colon of a line of the shape whose message is
    followed by a line terminator. *)
Lemma match_here_line_cut ln cn s1 L d4 s2 msg t rest :
  digits ln -> digits cn -> is_space s1 = true -> cls_upper L = true ->
  length d4 = 4 -> all is_digit d4 -> is_space s2 = true ->
  msg <> [] -> all cls_dot msg -> is_line_terminator t = true ->
  match_here PYLINT_LINE
    (COLON :: ln ++ COLON :: cn ++ COLON :: s1 :: L :: d4
       ++ COLON :: s2 :: msg ++ t :: rest)
  = Some [ln; cn; L :: d4; msg].
Proof.
  intros [Hln1 Hln2] [Hcn1 Hcn2] Hs1 HL H4 Hd4 Hs2 Hm1 Hm2 Ht.
  destruct (four_digits d4 H4 Hd4) as (a & b & c & d & -> & Ha & Hb & Hc & Hd).
  unfold match_here, PYLINT_LINE. cbn [rmatch times app].
  unfold cls_char at 1. rewrite N.eqb_refl.
  apply plus_class_greedy; [exact Hln1 | exact Hln2 | reflexivity |].
  cbv beta iota. unfold cls_char at 1. rewrite N.eqb_refl.
  apply plus_class_greedy; [exact Hcn1 | exact Hcn2 | reflexivity |].
  cbv beta iota. unfold cls_char at 1. rewrite N.eqb_refl.
  unfold cls_space, cls_digit. rewrite Hs1, HL, Ha, Hb, Hc, Hd.
  unfold cls_char at 1. rewrite N.eqb_refl. rewrite Hs2.
  apply plus_class_greedy; [exact Hm1 | exact Hm2 | |].
  - cbn [plus_class]. unfold cls_dot. now rewrite Ht.
  - rewrite !firstn_run.
    change (L :: a :: b :: c :: d :: COLON :: s2 :: msg ++ t :: rest)
      with ([L; a; b; c; d] ++ COLON :: s2 :: msg ++ t :: rest).
    rewrite firstn_run. reflexivity.
Qed.

(** X21.  A line terminator other than the line feed (a carriage return,
    U+2028 or U+2029) ends the message: in a line of the shape whose path
    holds no colon, the record is the one of the line cut before the first
    such code unit after the message has begun, so that the carriage return
    of a Windows line ending does not reach the record. *)
Theorem parseLine_message_ends_at_line_terminator
  (p ln cn : jsstring) (s1 L : char16) (d4 : jsstring) (s2 : char16)
  (msg : jsstring) (t : char16) (rest : jsstring) :
  ~ In COLON p ->
  digits ln -> digits cn -> is_space s1 = true -> cls_upper L = true ->
  length d4 = 4 -> all is_digit d4 -> is_space s2 = true ->
  msg <> [] -> all cls_dot msg -> is_line_terminator t = true ->
  parseLine (p ++ COLON :: ln ++ COLON :: cn ++ COLON :: s1 :: L :: d4
               ++ COLON :: s2 :: msg ++ t :: rest)
  = parseLine (p ++ COLON :: ln ++ COLON :: cn ++ COLON :: s1 :: L :: d4
               ++ COLON :: s2 :: msg) /\
  parseLine (p ++ COLON :: ln ++ COLON :: cn ++ COLON :: s1 :: L :: d4
               ++ COLON :: s2 :: msg ++ t :: rest)
  = Some {| line := parseInt10 ln; column := parseInt10 cn;
            message := trim msg; severity := severity_of_letter L |}.
Proof.
  intros Hp Hln Hcn Hs1 HL H4 Hd4 Hs2 Hm1 Hm2 Ht.
  rewrite (parseLine_line p ln cn s1 L d4 s2 msg) by assumption.
  assert (E : parseLine (p ++ COLON :: ln ++ COLON :: cn ++ COLON :: s1 :: L :: d4
                           ++ COLON :: s2 :: msg ++ t :: rest)
              = Some {| line := parseInt10 ln; column := parseInt10 cn;
                        message := trim msg; severity := severity_of_letter L |}).
  { unfold parseLine. rewrite regex_match_skip by exact Hp.
    rewrite (regex_match_here _ _ _
               (match_here_line_cut ln cn s1 L d4 s2 msg t rest
                  Hln Hcn Hs1 HL H4 Hd4 Hs2 Hm1 Hm2 Ht)).
    now rewrite severity_of_classifier. }
  split; exact E.
Qed.

Lemma parseLine_message_ends_at_line_terminator_witness :
  parseLine (lit "a.py:3:0: W0611: Unused import os" ++ [CR])
  = Some {| line := Int 3; column := Int 0;
            message := lit "Unused import os"; severity := Warning |}.
Proof.
  refine (proj2 (parseLine_message_ends_at_line_terminator
                   (lit "a.py") (lit "3") (lit "0") 32 87 (lit "0611") 32
                   (lit "Unused import os") CR [] _ _ _ _ _ _ _ _ _ _ _)).
  - cbn. intuition discriminate.
  - split; [discriminate | repeat constructor].
  - split; [discriminate | repeat constructor].
  - reflexivity.
  - reflexivity.
  - reflexivity.
  - repeat constructor.
  - reflexivity.
  - discriminate.
  - repeat constructor.
  - reflexivity.
Defined.

(** ** The linter run *)

Section LinterRun.

Variable fileUriOnClose : TextDocument -> option Uri -> option Uri.

Lemma steps_app st cbs1 cbs2 :
  Linter.steps fileUriOnClose st (cbs1 ++ cbs2)
  = Linter.steps fileUriOnClose (Linter.steps fileUriOnClose st cbs1) cbs2.
Proof. apply fold_left_app. Qed.

Lemma steps_cons st cb cbs :
  Linter.steps fileUriOnClose st (cb :: cbs)
  = Linter.steps fileUriOnClose (Linter.step fileUriOnClose st cb) cbs.
Proof. reflexivity. Qed.

(** Without a save of a Python document the callbacks only add to the
    buffer, and only standard output. *)
Lemma steps_buffer cbs : forall st,
  no_python_save cbs ->
  linterOutput (Linter.steps fileUriOnClose st cbs)
  = linterOutput st ++ stdout_of cbs.
Proof.
  induction cbs as [|cb cbs IH]; intros st H.
  - cbn. now rewrite app_nil_r.
  - rewrite steps_cons.
    destruct cb as [doc | doc res | data | data | doc active];
      cbn [no_python_save stdout_of] in *.
    + destruct H as [Hl H]. rewrite IH by exact H. f_equal.
      unfold Linter.step, Linter.runLinter.
      destruct (uri_eq_dec (languageId doc) (lit "python"));
        [contradiction | reflexivity].
    + rewrite IH by exact H. f_equal. now destruct res.
    + rewrite IH by exact H. cbn. now rewrite app_assoc.
    + now rewrite IH.
    + rewrite IH by exact H. f_equal.
      unfold Linter.step, Linter.onClose.
      now destruct (createDiagnostics _ _) as [[u ds]|].
Qed.


Lemma buffer_after_save before document cbs st :
  languageId document = lit "python" ->
  no_python_save cbs ->
  linterOutput (Linter.steps fileUriOnClose st (before ++ DidSave document :: cbs))
  = stdout_of cbs.
Proof.
  intros Hp Hn. rewrite steps_app, steps_cons.
  rewrite steps_buffer by exact Hn.
  unfold Linter.step, Linter.runLinter.
  destruct (uri_eq_dec (languageId document) (lit "python"));
    [reflexivity | contradiction].
Qed.

End LinterRun.

(** X22.  At any moment the global [linterOutput] holds the standard
    output that has arrived since the last save of a Python document, in
    the order of arrival and from whichever process it came: what was
    there before that save is gone, and error output, file reads and
    process ends do not touch it.  This holds in all three files. *)
Theorem linterOutput_since_last_save
  (fileUriOnClose : TextDocument -> option Uri -> option Uri)
  (st : LinterState) (before : list callback) (document : TextDocument)
  (cbs : list callback) :
  languageId document = lit "python" ->
  no_python_save cbs ->
  linterOutput (Linter.steps fileUriOnClose st (before ++ DidSave document :: cbs))
  = stdout_of cbs.
Proof. apply buffer_after_save. Qed.

(** The save of a second document while the process of the first still
    runs: the output that the first process delivers afterwards is mixed
    with the output of the second. *)
Lemma linterOutput_since_last_save_witness :
  linterOutput
    (Linter.steps Linter.activeEditorUri EMPTY_STATE
       ([DidSave DOC_A; FileRead DOC_A (Ok (lit "x = 1")); StdoutData (lit "a1 ")]
          ++ DidSave DOC_B
          :: [StdoutData (lit "a2 "); FileRead DOC_B (Ok (lit "y = 2"));
              StderrData (lit "warning"); StdoutData (lit "b1")]))
  = lit "a2 b1".
Proof.
  refine (linterOutput_since_last_save Linter.activeEditorUri EMPTY_STATE
            [DidSave DOC_A; FileRead DOC_A (Ok (lit "x = 1")); StdoutData (lit "a1 ")]
            DOC_B
            [StdoutData (lit "a2 "); FileRead DOC_B (Ok (lit "y = 2"));
             StderrData (lit "warning"); StdoutData (lit "b1")] _ _).
  - reflexivity.
  - cbn. exact I.
Defined.







(** ** The file name given to the linter *)

Lemma split_fields_sep_free s sep : forall l, In l (split s sep) -> ~ In sep l.
Proof.
  induction s as [|c s IH]; intros l; cbn [split].
  - intros [<- | []] [].
  - destruct (N.eqb_spec c sep) as [-> | Hc].
    + intros [<- | H]; [intros [] | now apply IH].
    + pose proof (split_not_nil s sep).
      destruct (split s sep) as [|h t]; [congruence|].
      intros [<- | H'].
      * intros [E | Hin]; [congruence | revert Hin; apply IH; now left].
      * apply IH. now right.
Qed.

Lemma last_in {A} (l : list A) (d : A) : l <> [] -> In (last l d) l.
Proof.
  induction l as [|x l IH]; intros H; [congruence|].
  destruct l as [|y l]; [now left|].
  right. apply IH. discriminate.
Qed.

Lemma lastPathSegment_after_backslash dir name :
  ~ In BACKSLASH name -> lastPathSegment (dir ++ BACKSLASH :: name) = name.
Proof.
  intros H. unfold lastPathSegment. rewrite split_app.
  cbn [split]. rewrite N.eqb_refl. rewrite (split_no_sep name BACKSLASH H).
  cbn [hd tl].
  set (front := removelast (split dir BACKSLASH)).
  set (y := last (split dir BACKSLASH) [] ++ []).
  change (front ++ [y; name]) with (front ++ [y] ++ [name]).
  rewrite app_assoc. apply last_last.
Qed.

(** X25.  The file name that [runLinter] gives the linter is the part of
    the path after its last backslash: it never holds a backslash, it is
    the file's own name for a Windows path, and it is the whole path,
    directories included, when the path holds no backslash (as on Linux or
    macOS).  The file's text is written to the process and its input
    closed. *)
Theorem runLinter_file_name
  (fileUriOnClose : TextDocument -> option Uri -> option Uri)
  (st : LinterState) (document : TextDocument) (fileContent : jsstring) :
  let name := lastPathSegment (fileName document) in
  effects (Linter.step fileUriOnClose st (FileRead document (Ok fileContent)))
  = effects st
      ++ [ Spawn (lit "python") [lit "-m"; lit "pylint"; lit "--from-stdin"; name];
           StdinWrite fileContent; StdinEnd ] /\
  ~ In BACKSLASH name /\
  (forall dir file, fileName document = dir ++ BACKSLASH :: file ->
                    ~ In BACKSLASH file -> name = file) /\
  (~ In BACKSLASH (fileName document) -> name = fileName document).
Proof.
  intros name. subst name. split; [reflexivity|]. split; [|split].
  - apply (split_fields_sep_free (fileName document)).
    apply last_in, split_not_nil.
  - intros dir file -> H. now apply lastPathSegment_after_backslash.
  - intros H. unfold lastPathSegment. now rewrite split_no_sep.
Qed.

Lemma runLinter_file_name_witness :
  lastPathSegment (fileName DOC_A) = lit "a.py" /\
  lastPathSegment (lit "/home/user/work/a.py") = lit "/home/user/work/a.py".
Proof.
  split.
  - refine (proj1 (proj2 (proj2 (runLinter_file_name Linter.activeEditorUri
                                   EMPTY_STATE DOC_A [])))
              (lit "C:\work") (lit "a.py") eq_refl _).
    cbn. intuition discriminate.
  - refine (proj2 (proj2 (proj2 (runLinter_file_name Linter.activeEditorUri EMPTY_STATE
              {| languageId := lit "python"; fileName := lit "/home/user/work/a.py";
                 uri := lit "file:///home/user/work/a.py" |} []))) _).
    cbn. intuition discriminate.
Defined.

(** ** The linter output in the repair command *)

(** X26.  The linter output that the repair command of the current
    extension file puts into its second prompt is the content of the
    global buffer at that moment: the standard output received since the
    last save of a Python document, whichever document that was and
    whether or not its process has ended. *)
Theorem Ext_repair_uses_linter_buffer
  (fileUriOnClose : TextDocument -> option Uri -> option Uri)
  (st : LinterState) (before : list callback) (document : TextDocument)
  (cbs : list callback)
  (W : Type) (chat : model W) (code : jsstring) (w w1 w2 : W) (r1 r2 : jsstring) :
  languageId document = lit "python" ->
  no_python_save cbs ->
  let st' := Linter.steps fileUriOnClose st (before ++ DidSave document :: cbs) in
  let code1 := Ext.extractLastOutput (trim r1) in
  chat (formatPrompt Ext.LOGIC_FIX_PROMPT code []) w = (Ok r1, w1) ->
  chat (formatPrompt Ext.PYLINT_FIX_PROMPT code1 (stdout_of cbs)) w1 = (Ok r2, w2) ->
  run (Ext.generateFixedCodeHandler W chat (Some code) (linterOutput st')) w
  = [ WithProgress (lit "Generating fixed code...");
      Report (lit "Fixing logical errors...");
      Chat (formatPrompt Ext.LOGIC_FIX_PROMPT code []);
      Report (lit "Fixing Pylint syntax errors...");
      Chat (formatPrompt Ext.PYLINT_FIX_PROMPT code1 (stdout_of cbs));
      ShowTextDocument (Ext.extractLastOutput (trim r2)) ].
Proof.
  intros Hp Hn st' code1 H1 H2. subst st' code1.
  rewrite (buffer_after_save fileUriOnClose before document cbs st Hp Hn).
  run_handler. answer H1. answer H2. reflexivity.
Qed.

Lemma Ext_repair_uses_linter_buffer_witness :
  run (Ext.generateFixedCodeHandler nat third_call_fails (Some (lit "x=1"))
         (linterOutput
            (Linter.steps Linter.activeEditorUri EMPTY_STATE
               ([] ++ DidSave DOC_A :: [StdoutData (lit "a.py:1:0: C0114: m")])))) 0
  = [ WithProgress (lit "Generating fixed code...");
      Report (lit "Fixing logical errors...");
      Chat (formatPrompt Ext.LOGIC_FIX_PROMPT (lit "x=1") []);
      Report (lit "Fixing Pylint syntax errors...");
      Chat (formatPrompt Ext.PYLINT_FIX_PROMPT (lit "x = 1") (lit "a.py:1:0: C0114: m"));
      ShowTextDocument (lit "x = 2") ].
Proof.
  exact (Ext_repair_uses_linter_buffer Linter.activeEditorUri EMPTY_STATE []
           DOC_A [StdoutData (lit "a.py:1:0: C0114: m")]
           nat third_call_fails (lit "x=1") 0 1 2 (lit "x = 1") (lit "x = 2")
           eq_refl I eq_refl eq_refl).
Defined.
